(** * The stream-readiness waiter of the streaming-deployment notebook

    Source: [Machine-Learning-in-Production/Reference/03-Streaming-Deployment.py],
    lines 200-211:

<<
    import time

    def until_stream_is_ready(name, progressions=3):
        # Get the query identified by "name"
        queries = list(filter(lambda query: query.name == name, spark.streams.active))

        # We need the query to exist, and progress to be >= "progressions"
        while (len(queries) == 0 or len(queries[0].recentProgress) < progressions):
            time.sleep(5) # Give it a couple of seconds
            queries = list(filter(lambda query: query.name == name, spark.streams.active))

        print(f"The stream {name} is active and ready.")
>>

    The function talks to its environment (it enumerates the engine's active
    queries, sleeps, prints) and may loop forever, so it is embedded as an
    interaction tree over the three effects it performs.  The tree is then
    run, step by step, against a scripted engine; all theorems are about
    such runs. *)

From ITree Require Import ITree ITreeFacts Events.State Events.StateFacts.
From ITree Require Import Props.Finite.
From Stdlib Require Import Morphisms.
From Stdlib Require Import ZArith String List Bool Arith Lia.
Import ListNotations ITreeNotations.
Local Open Scope itree_scope.
Local Open Scope string_scope.

(* ===================================================================== *)
(** * Data model *)
(* ===================================================================== *)

(** One entry of a query's progress log.  The waiter only counts entries. *)
Record StreamingQueryProgress : Type := {
  batchId : Z;
  numInputRows : Z
}.

(** A handle of a streaming query as the waiter sees it.  [name] is [None]
    for a query that was started without a name.  [recentProgress] is the
    progress log as it reads when the loop test inspects the handle, which
    the code does right after the enumeration that produced the handle and
    before any sleep. *)
Module StreamingQuery.
Record t : Type := {
  name : option string;
  recentProgress : list StreamingQueryProgress
}.
End StreamingQuery.

(** Python's [query.name == name] for a name that is a string. *)
Definition py_eq (a : option string) (b : string) : bool :=
  match a with
  | Some s => String.eqb s b
  | None => false
  end.

(* ===================================================================== *)
(** * Effects *)
(* ===================================================================== *)

(** The three things the function does to the outside world. *)
Variant sparkE : Type -> Type :=
| Active : sparkE (list StreamingQuery.t)   (* spark.streams.active *)
| Sleep (secs : Z) : sparkE unit          (* time.sleep(secs)     *)
| Print (line : string) : sparkE unit.    (* print(line)          *)

(* ===================================================================== *)
(** * The program *)
(* ===================================================================== *)

(** [list(filter(lambda query: query.name == name, active))] *)
Definition matching (name : string) (active : list StreamingQuery.t)
  : list StreamingQuery.t :=
  filter (fun query => py_eq query.(StreamingQuery.name) name) active.

(** [list(filter(lambda query: query.name == name, spark.streams.active))] *)
Definition get_queries (name : string) : itree sparkE (list StreamingQuery.t) :=
  active <- ITree.trigger Active ;;
  Ret (matching name active).

(** The loop test
    [len(queries) == 0 or len(queries[0].recentProgress) < progressions].
    The right operand is only evaluated on a non-empty list, so [queries[0]]
    never raises. *)
Definition waiting (queries : list StreamingQuery.t) (progressions : Z)
  : bool :=
  (List.length queries =? 0)%nat
  || match queries with
     | [] => true
     | query0 :: _ =>
         (Z.of_nat (List.length query0.(StreamingQuery.recentProgress))
          <? progressions)%Z
     end.

(** [f"The stream {name} is active and ready."] *)
Definition ready_message (name : string) : string :=
  "The stream " ++ name ++ " is active and ready.".

(** One turn of the [while]: either sleep and enumerate again ([inl], go
    round once more with the new [queries]) or leave the loop ([inr]). *)
Definition loop_body (name : string) (progressions : Z)
    (queries : list StreamingQuery.t)
  : itree sparkE (list StreamingQuery.t + unit) :=
  if waiting queries progressions then
    ITree.trigger (Sleep 5) ;;
    queries <- get_queries name ;;
    Ret (inl queries)
  else
    Ret (inr tt).

(** The statements after the first assignment: the loop and the print. *)
Definition wait_then_print (name : string) (progressions : Z)
    (queries : list StreamingQuery.t) : itree sparkE unit :=
  ITree.iter (loop_body name progressions) queries ;;
  ITree.trigger (Print (ready_message name)).

(** [def until_stream_is_ready(name, progressions=3)].  An omitted
    [progressions] is [None] here and takes the default of the signature.
    The Python function returns nothing ([None]); the tree returns [tt]. *)
Definition until_stream_is_ready (name : string) (progressions : option Z)
  : itree sparkE unit :=
  let progressions :=
    match progressions with
    | Some p => p
    | None => 3%Z
    end in
  queries <- get_queries name ;;
  wait_then_print name progressions queries.

(* ===================================================================== *)
(** * Running the program against an engine *)
(* ===================================================================== *)

(** What an observer of the process sees, in order. *)
Inductive event : Type :=
| EvActive (active : list StreamingQuery.t)  (* an enumeration and its answer *)
| EvSleep (secs : Z)
| EvPrint (line : string).

(** [clock] counts the enumerations of the active set made so far. *)
Record world : Type := {
  clock : nat;
  trace : list event
}.

Definition boot : world := {| clock := 0; trace := [] |}.

(** The result of running for a bounded number of steps: the call has
    returned, or it is still in progress. *)
Inductive outcome (R : Type) : Type :=
| Returned (r : R) (w : world)
| Pending (w : world).
Arguments Returned {R} r w.
Arguments Pending {R} w.

Definition world_of {R} (o : outcome R) : world :=
  match o with
  | Returned _ w => w
  | Pending w => w
  end.

Section Run.

(** The engine, as a script: [spark k] is what the [k]-th enumeration of
    [spark.streams.active] yields (counting from 0), in enumeration
    order. *)
Variable spark : nat -> list StreamingQuery.t.

Definition handle {T} (e : sparkE T) (w : world) : T * world :=
  match e in sparkE T return T * world with
  | Active =>
      (spark (clock w),
       {| clock := S (clock w);
          trace := trace w ++ [EvActive (spark (clock w))] |})
  | Sleep secs =>
      (tt, {| clock := clock w; trace := trace w ++ [EvSleep secs] |})
  | Print line =>
      (tt, {| clock := clock w; trace := trace w ++ [EvPrint line] |})
  end.

(** Run at most [fuel] steps; a step is one effect or one silent step (the
    loop's back edge).  Noticing that the tree has returned is free. *)
Fixpoint exec {R} (fuel : nat) (t : itree sparkE R) (w : world) : outcome R :=
  match observe t with
  | RetF r => Returned r w
  | TauF t' =>
      match fuel with
      | 0 => Pending w
      | S fuel' => exec fuel' t' w
      end
  | VisF e k =>
      match fuel with
      | 0 => Pending w
      | S fuel' => let (a, w') := handle e w in exec fuel' (k a) w'
      end
  end.

Definition run (fuel : nat) (name : string) (progressions : option Z)
  : outcome unit :=
  exec fuel (until_stream_is_ready name progressions) boot.

End Run.

(** The same meaning of the effects as a handler of the library: the run of
    a tree is then the tree [interp_state (spark_handler spark) t w], which
    performs no effect any more. *)
Definition spark_handler (spark : nat -> list StreamingQuery.t)
  : sparkE ~> Monads.stateT world (itree void1) :=
  fun T e w => Ret (snd (handle spark e w), fst (handle spark e w)).

(** The matching queries of the [k]-th enumeration. *)
Definition poll (spark : nat -> list StreamingQuery.t) (name : string) (k : nat)
  : list StreamingQuery.t :=
  matching name (spark k).

(* ===================================================================== *)
(** * Vocabulary for statements about runs *)
(* ===================================================================== *)

(** [len(query.recentProgress)], as the integer the test compares. *)
Definition progress_count (query : StreamingQuery.t) : Z :=
  Z.of_nat (List.length query.(StreamingQuery.recentProgress)).

(** The first match is the first query, in enumeration order, that has the
    name. *)
Definition first_match (name : string) (active : list StreamingQuery.t)
  : option StreamingQuery.t :=
  find (fun query => py_eq query.(StreamingQuery.name) name) active.

(** The loop test at enumeration [k]. *)
Definition waits_at (spark : nat -> list StreamingQuery.t) (name : string)
    (progressions : Z) (k : nat) : bool :=
  waiting (poll spark name k) progressions.

(** Enumeration [n] is the first at which the loop test fails. *)
Definition first_ready (spark : nat -> list StreamingQuery.t) (name : string)
    (progressions : Z) (n : nat) : Prop :=
  waits_at spark name progressions n = false /\
  forall m, m < n -> waits_at spark name progressions m = true.

Definition threshold_reached (spark : nat -> list StreamingQuery.t)
    (name : string) (progressions : Z) (k : nat) : Prop :=
  exists query0 rest,
    poll spark name k = query0 :: rest /\
    (progressions <= progress_count query0)%Z.

Definition must_wait (spark : nat -> list StreamingQuery.t)
    (name : string) (progressions : Z) (k : nat) : Prop :=
  poll spark name k = [] \/
  exists query0 rest,
    poll spark name k = query0 :: rest /\
    (progress_count query0 < progressions)%Z.

(** [query0] is the first query of [active], in enumeration order, whose
    name is [name]: every query enumerated before it has another name or
    none.  Stated on the names themselves, not through the code's filter. *)
Definition first_named (name : string) (active : list StreamingQuery.t)
    (query0 : StreamingQuery.t) : Prop :=
  exists before after,
    active = (before ++ query0 :: after)%list /\
    (forall query, In query before ->
                   StreamingQuery.name query <> Some name) /\
    StreamingQuery.name query0 = Some name.

(** Readiness of an enumeration judged on the first query, in enumeration
    order, that has the name. *)
Definition first_enumerated_ready (spark : nat -> list StreamingQuery.t)
    (name : string) (progressions : Z) (k : nat) : Prop :=
  exists query0,
    first_named name (spark k) query0 /\
    (progressions <= progress_count query0)%Z.

(** The trace once the [n]-th retry has enumerated the active set: the first
    enumeration, then [n] times a sleep and an enumeration. *)
Fixpoint polled (spark : nat -> list StreamingQuery.t) (n : nat) : list event :=
  match n with
  | 0 => [EvActive (spark 0)]
  | S k => polled spark k ++ [EvSleep 5; EvActive (spark (S k))]
  end.

Definition after_poll (spark : nat -> list StreamingQuery.t) (n : nat)
  : world :=
  {| clock := S n; trace := polled spark n |}.

(** The world after one more sleep and one more enumeration. *)
Definition slept_and_polled (spark : nat -> list StreamingQuery.t) (w : world)
  : world :=
  {| clock := S (clock w);
     trace := (trace w ++ [EvSleep 5]) ++ [EvActive (spark (clock w))] |}.

(** Where a call that has not returned stands after [1 + 3 * j + r] steps,
    [r < 3]: it has enumerated [j] or [j + 1] times after the first, and
    for [r = 1] it has just slept. *)
Definition pending_world (spark : nat -> list StreamingQuery.t) (j r : nat)
  : world :=
  match r with
  | 0 => after_poll spark j
  | 1 => {| clock := S j; trace := polled spark j ++ [EvSleep 5] |}
  | _ => after_poll spark (S j)
  end.

(** The world in which a call that left the loop after [n] retries returns. *)
Definition returned_world (spark : nat -> list StreamingQuery.t)
    (name : string) (n : nat) : world :=
  {| clock := S n;
     trace := polled spark n ++ [EvPrint (ready_message name)] |}.

(** Steps a call needs to return when the loop test first fails at
    enumeration [n]: the first enumeration, three per retry (sleep,
    enumeration, back edge) and the print. *)
Definition steps_to_return (n : nat) : nat := 3 * n + 2.

(** The lines printed, in order. *)
Definition printed (tr : list event) : list string :=
  flat_map (fun e => match e with EvPrint line => [line] | _ => [] end) tr.

(** The durations slept, in order. *)
Definition slept (tr : list event) : list Z :=
  flat_map (fun e => match e with EvSleep secs => [secs] | _ => [] end) tr.

(** What can follow the first enumeration in a trace: pairs of a
    five-second sleep and an enumeration, and then nothing, one more
    five-second sleep, or one printed line. *)
Inductive tail_shape : list event -> Prop :=
| tail_done : tail_shape []
| tail_sleeping : tail_shape [EvSleep 5]
| tail_printed line : tail_shape [EvPrint line]
| tail_retry active t :
    tail_shape t -> tail_shape (EvSleep 5 :: EvActive active :: t).

(** A scripted engine: the [k]-th enumeration yields the [k]-th snapshot of
    the list, and an empty active set once the list is used up. *)
Definition script (snapshots : list (list StreamingQuery.t))
  : nat -> list StreamingQuery.t :=
  fun k => nth k snapshots [].

(** A query with the given name and [count] progress reports. *)
Definition job (name : string) (count : nat) : StreamingQuery.t :=
  {| StreamingQuery.name := Some name;
     StreamingQuery.recentProgress :=
       repeat {| batchId := 0; numInputRows := 0 |} count |}.

(** The scenario of the specification: job "job-A" reports 0, 1, 2, 3
    progress entries at enumerations 0 to 3 and the threshold is 3. *)
Definition job_A_scenario : nat -> list StreamingQuery.t :=
  script [[job "job-A" 0]; [job "job-A" 1]; [job "job-A" 2]; [job "job-A" 3]].

(** The same scenario in company: at every enumeration job "job-A" is
    enumerated after a query of another name that has five progress
    reports, or after a query without a name; at the last one it is
    followed by a second query of its own name. *)
Definition job_A_in_company_scenario : nat -> list StreamingQuery.t :=
  script [[job "other" 5; job "job-A" 0];
          [job "other" 5; job "job-A" 1];
          [ {| StreamingQuery.name := None;
               StreamingQuery.recentProgress := [] |}; job "job-A" 2];
          [job "other" 5; job "job-A" 3; job "job-A" 0]].

(** Two queries share the name, and a query of another name is enumerated
    before them: first the same-named query enumerated first has no
    progress and the other nine reports, then the first has three and the
    other none. *)
Definition same_name_twice_scenario : nat -> list StreamingQuery.t :=
  script [[job "other" 5; job "job-A" 0; job "job-A" 9];
          [job "other" 0; job "job-A" 3; job "job-A" 0]].

(** Progress counts that go down: 2, then 1, then 3. *)
Definition shrinking_scenario : nat -> list StreamingQuery.t :=
  script [[job "job-A" 2]; [job "job-A" 1]; [job "job-A" 3]].

(** The job shows up at the second enumeration, with an empty progress
    log. *)
Definition late_idle_scenario : nat -> list StreamingQuery.t :=
  script [[job "other" 4]; [job "other" 4; job "job-A" 0]].

(* ===================================================================== *)
(** * The rest of the notebook's control code *)
(* ===================================================================== *)

(** [my_stream_name = "lesson03_stream"] (line 192). *)
Definition my_stream_name : string := "lesson03_stream".

(** [stream.stop()], the one effect of the notebook's control code that the
    waiter does not have. *)
Variant streamE : Type -> Type :=
| Stop (stream : StreamingQuery.t) : streamE unit.

(** The effects of the notebook's control code. *)
Definition notebookE : Type -> Type := sparkE +' streamE.

(** What an f-string makes of a query name: the name, or [None] spelled
    out for a query without one. *)
Definition py_str (a : option string) : string :=
  match a with
  | Some s => s
  | None => "None"
  end.

(** [f"Stopping {stream.name}"] *)
Definition stopping_message (stream : StreamingQuery.t) : string :=
  "Stopping " ++ py_str stream.(StreamingQuery.name).

(** [for x in l: body(x)] over a Python list. *)
Fixpoint for_each {E : Type -> Type} {A : Type}
    (body : A -> itree E unit) (l : list A) : itree E unit :=
  match l with
  | [] => Ret tt
  | x :: rest => body x ;; for_each body rest
  end.

(** The body of the stop loop:
    [print(f"Stopping {stream.name}"); stream.stop()]. *)
Definition stop_stream (stream : StreamingQuery.t) : itree notebookE unit :=
  ITree.trigger (inl1 (Print (stopping_message stream))) ;;
  ITree.trigger (inr1 (Stop stream)).

(** Lines 230-232 and again 273-275:
<<
    for stream in spark.streams.active:
        print(f"Stopping {stream.name}")
        stream.stop() # Stop the stream
>>
    [spark.streams.active] is evaluated once, before the first turn. *)
Definition stop_all_streams : itree notebookE unit :=
  active <- ITree.trigger (inl1 Active) ;;
  for_each stop_stream active.

(** The cells of lines 225 and 230-232 run one after the other:
    [until_stream_is_ready(my_stream_name)], then the stop loop. *)
Definition wait_then_stop_all : itree notebookE unit :=
  translate (@inl1 sparkE streamE)
    (until_stream_is_ready my_stream_name None) ;;
  stop_all_streams.

(** Where a bounded run of a tree over any effects stands: finished with a
    result, or still running. *)
Inductive progress (St R : Type) : Type :=
| Done (r : R) (s : St)
| Running (s : St).
Arguments Done {St R} r s.
Arguments Running {St R} s.

Section Steps.

Context {E : Type -> Type} {St : Type}.
Variable handler : forall T, E T -> St -> T * St.

(** [exec] for any effects and any state: at most [fuel] steps, a step
    being one effect or one silent step. *)
Fixpoint steps {R} (fuel : nat) (t : itree E R) (s : St) : progress St R :=
  match observe t with
  | RetF r => Done r s
  | TauF t' =>
      match fuel with
      | 0 => Running s
      | S fuel' => steps fuel' t' s
      end
  | VisF e k =>
      match fuel with
      | 0 => Running s
      | S fuel' => let (a, s') := handler _ e s in steps fuel' (k a) s'
      end
  end.

End Steps.

(** What an observer of the notebook sees: the waiter's kinds of events,
    and stops. *)
Inductive notebook_event : Type :=
| Ev (e : event)
| EvStop (stream : StreamingQuery.t).

(** [enumerations] counts the enumerations of the active set made so far,
    as [clock] does for the waiter alone. *)
Record session : Type := {
  enumerations : nat;
  history : list notebook_event
}.

Definition opening : session := {| enumerations := 0; history := [] |}.

(** The waiter's effects mean what [handle] says; a stop is recorded. *)
Definition handle_notebook (spark : nat -> list StreamingQuery.t)
    (T : Type) (e : notebookE T) (s : session) : T * session :=
  match e with
  | inl1 e' =>
      let (a, w) :=
        handle spark e' {| clock := enumerations s; trace := [] |} in
      (a, {| enumerations := clock w;
             history := history s ++ map Ev (trace w) |})
  | inr1 e' =>
      match e' in streamE T' return T' * session with
      | Stop stream =>
          (tt, {| enumerations := enumerations s;
                  history := history s ++ [EvStop stream] |})
      end
  end.

Definition run_notebook (spark : nat -> list StreamingQuery.t) {R}
    (fuel : nat) (t : itree notebookE R) (s : session) : progress session R :=
  steps (handle_notebook spark) fuel t s.

(** A waiter's world seen as a session that began with [before]. *)
Definition lift (before : list notebook_event) (w : world) : session :=
  {| enumerations := clock w; history := before ++ map Ev (trace w) |}.

(** The streams stopped, in order. *)
Definition stopped (h : list notebook_event) : list StreamingQuery.t :=
  flat_map (fun e => match e with EvStop stream => [stream] | _ => [] end) h.

(** The lines printed, in order. *)
Definition announced (h : list notebook_event) : list string :=
  flat_map (fun e => match e with Ev (EvPrint line) => [line] | _ => [] end) h.

(** What the stop loop does to a list of streams: for each, its line and
    then its stop. *)
Definition stop_events (streams : list StreamingQuery.t)
  : list notebook_event :=
  flat_map (fun stream =>
              [Ev (EvPrint (stopping_message stream)); EvStop stream]) streams.


Definition session_of {R} (p : progress session R) : session :=
  match p with
  | Done _ s => s
  | Running s => s
  end.

(** What the stop loop has done to the list of streams after [fuel] steps:
    two steps per stream, the line and then the stop. *)
Fixpoint stop_progress (fuel : nat) (streams : list StreamingQuery.t)
    {struct streams} : list notebook_event :=
  match streams, fuel with
  | [], _ => []
  | _ :: _, 0 => []
  | stream :: _, 1 => [Ev (EvPrint (stopping_message stream))]
  | stream :: rest, S (S fuel') =>
      Ev (EvPrint (stopping_message stream)) :: EvStop stream
        :: stop_progress fuel' rest
  end.

(** The stream is ready at the first enumeration and gone at the second,
    where another stream is active. *)
Definition handover_scenario : nat -> list StreamingQuery.t :=
  script [[job "lesson03_stream" 3]; [job "other" 0]].

(* ===================================================================== *)
(** * Runs respect tree equality *)
(* ===================================================================== *)

Arguments ready_message : simpl never.

Section ExecFacts.

Variable spark : nat -> list StreamingQuery.t.

(** Strongly bisimilar trees run alike, so the library's equations for
    [bind] and [iter] can be used to rewrite inside [exec]. *)
Lemma exec_eq_itree {R} fuel :
  forall (t t' : itree sparkE R) w,
    t ≅ t' -> exec spark fuel t w = exec spark fuel t' w.
Proof.
  induction fuel as [|fuel IH]; intros t t' w H;
    apply eqit_inv in H; cbn; unfold observe;
    destruct (_observe t) as [r|u|X e k], (_observe t') as [r'|u'|X' e' k'];
    cbn in H; try contradiction; try discriminate; subst; auto.
  - destruct H as [p [He Hk]]. destruct p. cbn in He, Hk. subst.
    destruct (handle spark e' w) as [a w'].
    apply IH, Hk.
Qed.

#[global] Instance exec_Proper {R} fuel :
  Proper (eq_itree eq ==> eq ==> eq) (@exec spark R fuel).
Proof. intros t t' H w w' <-. now apply exec_eq_itree. Qed.

Lemma exec_Ret {R} fuel (r : R) w :
  exec spark fuel (Ret r) w = Returned r w.
Proof. destruct fuel; reflexivity. Qed.

Lemma exec_Tau {R} fuel (t : itree sparkE R) w :
  exec spark (S fuel) (Tau t) w = exec spark fuel t w.
Proof. reflexivity. Qed.

Lemma exec_Vis {R X} fuel (e : sparkE X) (k : X -> itree sparkE R) w :
  exec spark (S fuel) (Vis e k) w =
  exec spark fuel (k (fst (handle spark e w))) (snd (handle spark e w)).
Proof. cbn. destruct (handle spark e w); reflexivity. Qed.

End ExecFacts.

(* ===================================================================== *)
(** * Bounded runs and the library's interpretation agree *)
(* ===================================================================== *)

Section Adequacy.

Variable spark : nat -> list StreamingQuery.t.

Lemma exec_returned_interp_state {R} fuel :
  forall (t : itree sparkE R) w r w',
    exec spark fuel t w = Returned r w' ->
    interp_state (spark_handler spark) t w ≈ Ret (w', r).
Proof.
  induction fuel as [|fuel IH]; intros t w r w' H;
    rewrite (itree_eta t); cbn in H;
    destruct (observe t) as [r0|t0|X e k]; try discriminate.
  - injection H as <- <-. now rewrite interp_state_ret.
  - injection H as <- <-. now rewrite interp_state_ret.
  - rewrite interp_state_tau, tau_eutt. now apply IH.
  - rewrite interp_state_vis. unfold spark_handler. cbn.
    rewrite bind_ret_l, tau_eutt. cbn.
    destruct (handle spark e w) as [a w0]. now apply IH.
Qed.

Lemma interp_state_returned_exec {R} (t : itree sparkE R) w r w' :
  interp_state (spark_handler spark) t w ≈ Ret (w', r) ->
  exists fuel, exec spark fuel t w = Returned r w'.
Proof.
  intros H.
  assert (F : all_finite (interp_state (spark_handler spark) t w)).
  { eapply all_finite_eutt_l; [symmetry; exact H|apply all_finite_Ret]. }
  remember (interp_state (spark_handler spark) t w) as u eqn:Eu.
  assert (Eu' : u ≅ interp_state (spark_handler spark) t w)
    by (subst; reflexivity).
  clear Eu. revert t w Eu'.
  induction F as [a u Hobs|u u0 Hobs F IH|X e u k Hobs F IH]; intros t w Eu.
  - rewrite unfold_interp_state in Eu.
    destruct (observe t) as [r0|t0|X e k] eqn:Ot; cbn in Eu.
    + exists 0. cbn. rewrite Ot. rewrite Eu in H.
      apply eutt_inv_Ret in H. now injection H as -> ->.
    + apply eqit_inv in Eu. unfold observe in Hobs. rewrite Hobs in Eu.
      cbn in Eu. contradiction.
    + unfold spark_handler in Eu. rewrite bind_ret_l in Eu.
      apply eqit_inv in Eu. unfold observe in Hobs. rewrite Hobs in Eu.
      cbn in Eu. contradiction.
  - rewrite unfold_interp_state in Eu.
    destruct (observe t) as [r0|t0|X e k] eqn:Ot; cbn in Eu.
    + apply eqit_inv in Eu. unfold observe in Hobs. rewrite Hobs in Eu.
      cbn in Eu. contradiction.
    + apply eqit_inv in Eu. unfold observe in Hobs. rewrite Hobs in Eu.
      cbn in Eu.
      assert (Hu0 : u0 ≈ Ret (w', r)).
      { rewrite <- H. rewrite (itree_eta u). unfold observe. rewrite Hobs.
        now rewrite tau_eutt. }
      destruct (IH Hu0 t0 w Eu) as [fuel Hf].
      exists (S fuel). cbn. now rewrite Ot.
    + unfold spark_handler in Eu. rewrite bind_ret_l in Eu.
      apply eqit_inv in Eu. unfold observe in Hobs. rewrite Hobs in Eu.
      cbn in Eu.
      assert (Hu0 : u0 ≈ Ret (w', r)).
      { rewrite <- H. rewrite (itree_eta u). unfold observe. rewrite Hobs.
        now rewrite tau_eutt. }
      destruct (IH Hu0 _ _ Eu) as [fuel Hf].
      exists (S fuel). cbn. rewrite Ot.
      destruct (handle spark e w) as [a w0]. exact Hf.
  - destruct e.
Qed.

(** A tree that is pending after any number of steps is interpreted as
    the silently diverging tree. *)
Lemma exec_pending_spin {R} :
  forall (t : itree sparkE R) w,
    (forall fuel, exists w', exec spark fuel t w = Pending w') ->
    interp_state (spark_handler spark) t w ≈ ITree.spin.
Proof.
  einit. ecofix CIH. intros t w H.
  rewrite unfold_interp_state.
  rewrite (itree_eta ITree.spin). cbn.
  destruct (observe t) as [r0|t0|X e k] eqn:Ot; cbn.
  - destruct (H 0) as [w' Hw]. cbn in Hw. rewrite Ot in Hw. discriminate.
  - etau. ebase. right. apply CIHL. intros fuel.
    destruct (H (S fuel)) as [w' Hw]. cbn in Hw. rewrite Ot in Hw. eauto.
  - unfold spark_handler. rewrite bind_ret_l. cbn.
    etau. ebase. right. apply CIHL. intros fuel.
    destruct (H (S fuel)) as [w' Hw]. cbn in Hw. rewrite Ot in Hw.
    destruct (handle spark e w) as [a w0]. eauto.
Qed.

End Adequacy.

(* ===================================================================== *)
(** * One turn of the loop, as an equation on runs *)
(* ===================================================================== *)

Section Unfold.

Variable spark : nat -> list StreamingQuery.t.
Variable name : string.
Variable progressions : Z.

Lemma exec_wait_then_print fuel queries w :
  exec spark fuel (wait_then_print name progressions queries) w =
  if waiting queries progressions then
    match fuel with
    | 0 => Pending w
    | 1 => Pending {| clock := clock w; trace := trace w ++ [EvSleep 5] |}
    | 2 => Pending (slept_and_polled spark w)
    | S (S (S fuel')) =>
        exec spark fuel'
          (wait_then_print name progressions (poll spark name (clock w)))
          (slept_and_polled spark w)
    end
  else
    match fuel with
    | 0 => Pending w
    | S _ =>
        Returned tt
          {| clock := clock w;
             trace := trace w ++ [EvPrint (ready_message name)] |}
    end.
Proof.
  unfold wait_then_print at 1.
  rewrite unfold_iter. unfold loop_body at 1.
  destruct (waiting queries progressions) eqn:Hw.
  - rewrite !bind_bind, bind_trigger.
    destruct fuel as [|fuel]; [reflexivity|].
    rewrite exec_Vis; cbn [handle fst snd].
    unfold get_queries. rewrite !bind_bind, bind_trigger.
    destruct fuel as [|fuel]; [reflexivity|].
    rewrite exec_Vis; cbn [handle fst snd clock trace].
    rewrite !bind_ret_l. cbv beta iota. rewrite bind_tau.
    destruct fuel as [|fuel]; [reflexivity|].
    rewrite exec_Tau. reflexivity.
  - rewrite bind_ret_l. cbv beta iota. rewrite bind_ret_l.
    destruct fuel as [|fuel]; [reflexivity|].
    unfold ITree.trigger. rewrite exec_Vis; cbn [handle fst snd].
    apply exec_Ret.
Qed.

End Unfold.

(* ===================================================================== *)
(** * Runs of the whole call *)
(* ===================================================================== *)

Section Runs.

Variable spark : nat -> list StreamingQuery.t.
Variable name : string.
Variable progressions : Z.

Let W := waits_at spark name progressions.
Let body := wait_then_print name progressions.

Lemma slept_and_polled_after n :
  slept_and_polled spark (after_poll spark n) = after_poll spark (S n).
Proof.
  unfold slept_and_polled, after_poll; cbn [clock trace polled].
  now rewrite <- app_assoc.
Qed.

(** The call starts with one enumeration, then enters the loop. *)
Lemma run_start fuel :
  run spark (S fuel) name (Some progressions) =
  exec spark fuel (body (poll spark name 0)) (after_poll spark 0).
Proof.
  unfold run, until_stream_is_ready, get_queries.
  rewrite bind_bind, bind_trigger, exec_Vis; cbn [handle fst snd].
  now rewrite bind_ret_l.
Qed.

(** [j] turns of the loop that all find the test true. *)
Lemma exec_retries j : forall fuel,
  (forall m, m < j -> W m = true) ->
  exec spark (3 * j + fuel) (body (poll spark name 0)) (after_poll spark 0) =
  exec spark fuel (body (poll spark name j)) (after_poll spark j).
Proof.
  induction j as [|j IH]; intros fuel HW.
  - reflexivity.
  - replace (3 * S j + fuel) with (3 * j + S (S (S fuel))) by lia.
    rewrite IH by (intros m Hm; apply HW; lia).
    unfold body. rewrite exec_wait_then_print.
    cbn [after_poll clock]. fold (after_poll spark j).
    change (waiting (poll spark name j) progressions) with (W j).
    rewrite (HW j) by lia.
    now rewrite slept_and_polled_after.
Qed.

(** A call whose test first fails at enumeration [n] returns, once it is
    given the steps. *)
Lemma run_returns n fuel :
  first_ready spark name progressions n ->
  steps_to_return n <= fuel ->
  run spark fuel name (Some progressions) =
  Returned tt (returned_world spark name n).
Proof.
  intros [Hn Hlt] Hfuel. unfold steps_to_return in Hfuel.
  replace fuel with (S (3 * n + S (fuel - 3 * n - 2))) by lia.
  rewrite run_start, exec_retries by exact Hlt.
  unfold body. rewrite exec_wait_then_print.
  change (waiting (poll spark name n) progressions) with (W n).
  unfold W. now rewrite Hn.
Qed.

Lemma run_pending j r :
  r < 3 ->
  (forall m, m < j -> W m = true) ->
  (0 < r -> W j = true) ->
  run spark (S (3 * j + r)) name (Some progressions) =
  Pending (pending_world spark j r).
Proof.
  intros Hr Hlt Hj.
  rewrite run_start, exec_retries by exact Hlt.
  unfold body. rewrite exec_wait_then_print.
  change (waiting (poll spark name j) progressions) with (W j).
  destruct r as [|[|[|r]]]; try lia.
  - now destruct (W j).
  - now rewrite Hj by lia.
  - rewrite Hj by lia. now rewrite slept_and_polled_after.
Qed.

Lemma run_0 : run spark 0 name (Some progressions) = Pending boot.
Proof.
  unfold run, until_stream_is_ready, get_queries.
  now rewrite bind_bind, bind_trigger.
Qed.

(** Below any bound, either some enumeration is the first ready one or
    all of them find the test true. *)
Lemma first_ready_or_waits b :
  (exists n, n < b /\ first_ready spark name progressions n) \/
  (forall m, m < b -> W m = true).
Proof.
  induction b as [|b [(n & Hn & Hf)|Hall]].
  - right; intros; lia.
  - left; exists n; split; [lia|exact Hf].
  - destruct (W b) eqn:Hb.
    + right; intros m Hm.
      destruct (Nat.eq_dec m b) as [->|]; [exact Hb|apply Hall; lia].
    + left; exists b; split; [lia|split; [exact Hb|exact Hall]].
Qed.

Lemma first_ready_unique n n' :
  first_ready spark name progressions n ->
  first_ready spark name progressions n' -> n = n'.
Proof.
  intros [Hn Hlt] [Hn' Hlt'].
  destruct (Nat.lt_trichotomy n n') as [H|[H|H]]; [|exact H|].
  - apply Hlt' in H. unfold W in *. congruence.
  - apply Hlt in H. unfold W in *. congruence.
Qed.

(** A run whose tests so far all held is pending, at a known place. *)
Lemma run_waits fuel :
  (forall m, steps_to_return m <= fuel -> W m = true) ->
  fuel = 0 /\ run spark fuel name (Some progressions) = Pending boot \/
  exists j r, r < 3 /\ fuel = S (3 * j + r) /\
    run spark fuel name (Some progressions) =
    Pending (pending_world spark j r).
Proof.
  unfold steps_to_return. intros HW.
  destruct fuel as [|f]; [left; split; [reflexivity|apply run_0]|right].
  exists (f / 3), (f mod 3).
  pose proof (Nat.div_mod_eq f 3) as Hdm.
  pose proof (Nat.mod_upper_bound f 3 ltac:(lia)) as Hmod.
  split; [exact Hmod|]. split; [lia|].
  rewrite Hdm at 1. apply run_pending; [exact Hmod| |];
    intros; apply HW; lia.
Qed.

(** Every run is of one of the two kinds. *)
Lemma run_cases fuel :
  (exists n, first_ready spark name progressions n /\
             steps_to_return n <= fuel /\
             run spark fuel name (Some progressions) =
             Returned tt (returned_world spark name n)) \/
  ((forall m, steps_to_return m <= fuel -> W m = true) /\
   (fuel = 0 /\ run spark fuel name (Some progressions) = Pending boot \/
    exists j r, r < 3 /\ fuel = S (3 * j + r) /\
      run spark fuel name (Some progressions) =
      Pending (pending_world spark j r))).
Proof.
  assert (Hcut : (exists n, first_ready spark name progressions n /\
                            steps_to_return n <= fuel) \/
                 (forall m, steps_to_return m <= fuel -> W m = true)).
  { unfold steps_to_return.
    destruct (first_ready_or_waits fuel) as [(n & Hn & Hf)|Hall].
    - destruct (le_lt_dec (3 * n + 2) fuel) as [Hle|Hgt].
      + left. now exists n.
      + right. intros m Hm. apply Hf. lia.
    - right. intros m Hm. apply Hall. lia. }
  destruct Hcut as [(n & Hf & Hle)|HW].
  - left. exists n. repeat split; try apply Hf; try exact Hle.
    now apply run_returns.
  - right. split; [exact HW|]. now apply run_waits.
Qed.

End Runs.

(* ===================================================================== *)
(** * The loop test in words *)
(* ===================================================================== *)

Lemma py_eq_true a b : py_eq a b = true <-> a = Some b.
Proof.
  destruct a as [s|]; cbn; [|split; discriminate].
  rewrite String.eqb_eq. split; congruence.
Qed.

Lemma matching_In name active query :
  In query (matching name active) <->
  In query active /\ StreamingQuery.name query = Some name.
Proof. unfold matching. now rewrite filter_In, py_eq_true. Qed.

(** The matching list is empty exactly when no active query has the name. *)
Lemma matching_nil name active :
  matching name active = [] <->
  forall query, In query active -> StreamingQuery.name query <> Some name.
Proof.
  split.
  - intros H query Hin Hname.
    assert (Hm : In query (matching name active)) by now apply matching_In.
    rewrite H in Hm. contradiction.
  - intros H. destruct (matching name active) as [|query rest] eqn:E; auto.
    assert (Hm : In query (matching name active)) by (rewrite E; now left).
    apply matching_In in Hm. destruct Hm as [Hin Hname].
    now apply H in Hin.
Qed.

(** The test holds: nothing matches, or the first match is short of the
    threshold. *)
Lemma waiting_true_iff queries progressions :
  waiting queries progressions = true <->
  queries = [] \/
  exists query0 rest,
    queries = query0 :: rest /\ (progress_count query0 < progressions)%Z.
Proof.
  unfold waiting, progress_count.
  destruct queries as [|query0 rest]; cbn.
  - split; auto.
  - rewrite Z.ltb_lt. split.
    + intros H. right. now exists query0, rest.
    + intros [H|(q0 & r & H & Hlt)]; [discriminate|]. now inversion H; subst.
Qed.

(** The test fails: there is a first match and it has reached the
    threshold. *)
Lemma waiting_false_iff queries progressions :
  waiting queries progressions = false <->
  exists query0 rest,
    queries = query0 :: rest /\ (progressions <= progress_count query0)%Z.
Proof.
  unfold waiting, progress_count.
  destruct queries as [|query0 rest]; cbn.
  - split; [discriminate|]. intros (q0 & r & H & _). discriminate.
  - rewrite Z.ltb_ge. split.
    + intros H. now exists query0, rest.
    + intros (q0 & r & H & Hle). now inversion H; subst.
Qed.

Lemma hd_error_matching name active :
  hd_error (matching name active) = first_match name active.
Proof.
  unfold matching, first_match.
  induction active as [|query active IH]; cbn; [reflexivity|].
  now destruct (py_eq (StreamingQuery.name query) name).
Qed.

Lemma waiting_first_match name active progressions :
  waiting (matching name active) progressions =
  match first_match name active with
  | Some query0 => (progress_count query0 <? progressions)%Z
  | None => true
  end.
Proof.
  rewrite <- hd_error_matching. unfold waiting, progress_count.
  now destruct (matching name active).
Qed.

(* ===================================================================== *)
(** * What a trace holds *)
(* ===================================================================== *)

Section Polled.

Variable spark : nat -> list StreamingQuery.t.

Lemma printed_polled n : printed (polled spark n) = [].
Proof.
  induction n as [|n IH]; [reflexivity|].
  cbn [polled]. unfold printed in *. now rewrite flat_map_app, IH.
Qed.

Lemma slept_polled n : slept (polled spark n) = repeat 5%Z n.
Proof.
  induction n as [|n IH]; [reflexivity|].
  cbn [polled]. unfold slept in *. rewrite flat_map_app, IH. cbn.
  now rewrite <- repeat_cons.
Qed.

(** The last thing in [polled spark n] is the answer of enumeration [n]. *)
Lemma polled_last n :
  exists tr, polled spark n = (tr ++ [EvActive (spark n)])%list.
Proof.
  destruct n as [|n].
  - now exists [].
  - exists (polled spark n ++ [EvSleep 5])%list. cbn [polled].
    now rewrite <- app_assoc.
Qed.

End Polled.

(* ===================================================================== *)
(** * Shared consequences *)
(* ===================================================================== *)

Lemma waits_at_true spark name progressions k :
  waits_at spark name progressions k = true <->
  must_wait spark name progressions k.
Proof. apply waiting_true_iff. Qed.

Lemma waits_at_false spark name progressions k :
  waits_at spark name progressions k = false <->
  threshold_reached spark name progressions k.
Proof. apply waiting_false_iff. Qed.

Lemma first_ready_iff spark name progressions n :
  first_ready spark name progressions n <->
  threshold_reached spark name progressions n /\
  forall m, m < n -> must_wait spark name progressions m.
Proof.
  unfold first_ready. rewrite waits_at_false.
  split; intros [H1 H2]; (split; [exact H1|]); intros m Hm;
    apply waits_at_true; auto.
Qed.

Lemma run_default spark fuel name :
  run spark fuel name None = run spark fuel name (Some 3%Z).
Proof. reflexivity. Qed.

Lemma run_returned_iff spark name progressions fuel w :
  run spark fuel name (Some progressions) = Returned tt w <->
  exists n, first_ready spark name progressions n /\
            steps_to_return n <= fuel /\
            w = returned_world spark name n.
Proof.
  split.
  - intros H.
    destruct (run_cases spark name progressions fuel)
      as [(n & Hf & Hle & Hrun)|[_ [[_ Hrun]|(j & r & _ & _ & Hrun)]]];
      rewrite Hrun in H; try discriminate.
    exists n. repeat split; try apply Hf; try exact Hle. congruence.
  - intros (n & Hf & Hle & ->). now apply run_returns.
Qed.

Lemma run_pending_iff spark name progressions fuel :
  (exists w, run spark fuel name (Some progressions) = Pending w) <->
  forall m, steps_to_return m <= fuel ->
            waits_at spark name progressions m = true.
Proof.
  split.
  - intros [w H].
    destruct (run_cases spark name progressions fuel)
      as [(n & Hf & Hle & Hrun)|[HW _]]; [|exact HW].
    rewrite Hrun in H. discriminate.
  - intros HW.
    destruct (run_cases spark name progressions fuel)
      as [(n & [Hn _] & Hle & _)|[_ [[_ Hrun]|(j & r & _ & _ & Hrun)]]];
      eauto.
    rewrite (HW n Hle) in Hn. discriminate.
Qed.

(** The shapes a trace can have, whatever the engine does. *)
Lemma run_world spark name progressions fuel :
  let w := world_of (run spark fuel name progressions) in
  w = boot \/
  (exists j, w = after_poll spark j) \/
  (exists j, w = {| clock := S j; trace := polled spark j ++ [EvSleep 5] |}) \/
  (exists n, w = returned_world spark name n).
Proof.
  destruct progressions as [p|]; [|rewrite run_default];
    cbv zeta;
    match goal with |- context [run _ _ _ (Some ?p)] =>
      destruct (run_cases spark name p fuel)
        as [(n & _ & _ & Hrun)|[_ [[_ Hrun]|(j & r & Hr & _ & Hrun)]]]
    end; rewrite Hrun; cbn [world_of]; eauto.
  all: destruct r as [|[|r]]; cbn [pending_world]; eauto 6.
Qed.

Lemma run_pending_world spark name progressions fuel w :
  run spark fuel name progressions = Pending w ->
  w = boot \/
  (exists j, w = after_poll spark j) \/
  (exists j, w = {| clock := S j; trace := polled spark j ++ [EvSleep 5] |}).
Proof.
  intros H.
  destruct progressions as [p|]; [|rewrite run_default in H];
    match type of H with context [run _ _ _ (Some ?p)] =>
      destruct (run_cases spark name p fuel)
        as [(n & _ & _ & Hrun)|[_ [[_ Hrun]|(j & r & Hr & _ & Hrun)]]]
    end; rewrite Hrun in H; try discriminate;
    injection H as <-; eauto.
  all: destruct r as [|[|r]]; cbn [pending_world]; eauto 6.
Qed.

(** The two kinds of run without step counts: a call whose test first
    fails at enumeration [n] is, under the library's interpretation, the tree
    that returns in [returned_world spark name n]; a call whose test never
    fails is the silently diverging tree. *)
Lemma until_stream_is_ready_converges spark name progressions n :
  first_ready spark name progressions n ->
  interp_state (spark_handler spark)
    (until_stream_is_ready name (Some progressions)) boot
  ≈ Ret (returned_world spark name n, tt).
Proof.
  intros Hf.
  apply (exec_returned_interp_state spark (steps_to_return n)).
  now apply run_returns.
Qed.

Lemma until_stream_is_ready_diverges spark name progressions :
  (forall m, waits_at spark name progressions m = true) ->
  interp_state (spark_handler spark)
    (until_stream_is_ready name (Some progressions)) boot
  ≈ ITree.spin.
Proof.
  intros HW. apply exec_pending_spin. intros fuel.
  apply run_pending_iff. intros m _. apply HW.
Qed.

(* ===================================================================== *)
(** * The shape of traces *)
(* ===================================================================== *)

Lemma polled_tail spark n u :
  tail_shape u ->
  exists t, (polled spark n ++ u)%list = EvActive (spark 0) :: t /\ tail_shape t.
Proof.
  revert u. induction n as [|n IH]; intros u Hu.
  - exists u. now split.
  - cbn [polled]. rewrite <- app_assoc. apply IH.
    cbn. now constructor.
Qed.

(** Between two successive enumerations of a well-shaped trace lies exactly
    one five-second sleep. *)
Lemma tail_shape_gap t :
  tail_shape t ->
  forall a pre a' mid b post,
    EvActive a :: t = (pre ++ EvActive a' :: mid ++ EvActive b :: post)%list ->
    (forall x, ~ In (EvActive x) mid) ->
    mid = [EvSleep 5].
Proof.
  induction 1 as [| |line|active t Ht IH]; intros a pre a' mid b post Heq Hmid;
    destruct pre as [|e pre]; cbn in Heq; injection Heq as He Heq.
  - destruct mid; discriminate.
  - destruct pre; discriminate.
  - destruct mid as [|e1 mid]; [discriminate|].
    injection Heq as _ Heq. destruct mid; discriminate.
  - destruct pre as [|e1 pre]; [discriminate|].
    injection Heq as _ Heq. destruct pre; discriminate.
  - destruct mid as [|e1 mid]; [discriminate|].
    injection Heq as _ Heq. destruct mid; discriminate.
  - destruct pre as [|e1 pre]; [discriminate|].
    injection Heq as _ Heq. destruct pre; discriminate.
  - destruct mid as [|e1 mid]; [discriminate|].
    injection Heq as He1 Heq. subst e1.
    destruct mid as [|e2 mid]; [reflexivity|].
    injection Heq as He2 _. subst e2.
    exfalso. apply (Hmid active). right. now left.
  - destruct pre as [|e1 pre]; [discriminate|].
    injection Heq as _ Heq.
    now apply (IH active pre a' mid b post).
Qed.

Lemma tail_shape_sleeps t secs :
  tail_shape t -> In (EvSleep secs) t -> secs = 5%Z.
Proof.
  induction 1 as [| |line|active t Ht IH]; cbn; intros Hin.
  - contradiction.
  - destruct Hin as [[= <-]|[]]. reflexivity.
  - destruct Hin as [[=]|[]].
  - destruct Hin as [[= <-]|[[=]|Hin]]; auto.
Qed.

Lemma run_trace_shape spark name progressions fuel :
  let tr := trace (world_of (run spark fuel name progressions)) in
  tr = [] \/ exists t, tr = EvActive (spark 0) :: t /\ tail_shape t.
Proof.
  cbv zeta.
  destruct (run_world spark name progressions fuel)
    as [->|[[j ->]|[[j ->]|[n ->]]]]; cbn [boot after_poll returned_world trace].
  - now left.
  - right. rewrite <- (app_nil_r (polled spark j)).
    apply polled_tail. constructor.
  - right. apply polled_tail. constructor.
  - right. apply polled_tail. constructor.
Qed.

Lemma printed_app tr tr' :
  printed (tr ++ tr') = (printed tr ++ printed tr')%list.
Proof. apply flat_map_app. Qed.

Lemma slept_app tr tr' : slept (tr ++ tr') = (slept tr ++ slept tr')%list.
Proof. apply flat_map_app. Qed.

Lemma printed_returned_world spark name n :
  printed (trace (returned_world spark name n)) = [ready_message name].
Proof.
  cbn [returned_world trace]. now rewrite printed_app, printed_polled.
Qed.

Lemma slept_returned_world spark name n :
  slept (trace (returned_world spark name n)) = repeat 5%Z n.
Proof.
  cbn [returned_world trace]. rewrite slept_app, slept_polled. cbn.
  apply app_nil_r.
Qed.

Lemma printed_pending spark name progressions fuel w :
  run spark fuel name progressions = Pending w -> printed (trace w) = [].
Proof.
  intros H. apply run_pending_world in H.
  destruct H as [->|[[j ->]|[j ->]]]; cbn [boot after_poll trace].
  - reflexivity.
  - apply printed_polled.
  - now rewrite printed_app, printed_polled.
Qed.

Lemma run_returned_world spark name progressions fuel r w :
  run spark fuel name progressions = Returned r w ->
  exists n, w = returned_world spark name n.
Proof.
  intros H. destruct r.
  destruct progressions as [p|]; [|rewrite run_default in H];
    apply run_returned_iff in H; destruct H as (n & _ & _ & ->); eauto.
Qed.

(** The first query that has the name, read off the names, is the head of
    the list the code's filter builds. *)
Lemma first_named_matching name active query0 :
  first_named name active query0 <->
  exists rest, matching name active = query0 :: rest.
Proof.
  split.
  - intros (before & after & -> & Hbefore & Hname).
    exists (matching name after). unfold matching. rewrite filter_app.
    fold (matching name before).
    rewrite (proj2 (matching_nil name before) Hbefore). cbn.
    now rewrite (proj2 (py_eq_true _ _) Hname).
  - intros [rest H]. revert H.
    induction active as [|query active IH]; cbn; [discriminate|].
    destruct (py_eq (StreamingQuery.name query) name) eqn:E.
    + intros [= -> _]. apply py_eq_true in E.
      exists [], active. repeat split; [intros q []|exact E].
    + intros H. destruct (IH H) as (before & after & -> & Hbefore & Hname).
      exists (query :: before), after. repeat split; [|exact Hname].
      intros q [<-|Hin]; [|now apply Hbefore].
      intros Hq. apply py_eq_true in Hq. congruence.
Qed.

Lemma threshold_reached_first_named spark name progressions k :
  threshold_reached spark name progressions k <->
  first_enumerated_ready spark name progressions k.
Proof.
  unfold threshold_reached, first_enumerated_ready, poll. split.
  - intros (query0 & rest & Hq & Hc). exists query0. split; [|exact Hc].
    apply first_named_matching. now exists rest.
  - intros (query0 & Hq & Hc). apply first_named_matching in Hq.
    destruct Hq as [rest Hq]. now exists query0, rest.
Qed.

Lemma waits_at_first_named spark name progressions k :
  waits_at spark name progressions k = false <->
  first_enumerated_ready spark name progressions k.
Proof. now rewrite waits_at_false, threshold_reached_first_named. Qed.

(** First-readiness, read off the names. *)
Lemma first_ready_first_named spark name progressions n :
  first_ready spark name progressions n <->
  first_enumerated_ready spark name progressions n /\
  forall m, m < n -> ~ first_enumerated_ready spark name progressions m.
Proof.
  unfold first_ready. rewrite waits_at_first_named.
  split; intros [H1 H2]; (split; [exact H1|]); intros m Hm.
  - rewrite <- waits_at_first_named. rewrite (H2 m Hm). discriminate.
  - specialize (H2 m Hm). rewrite <- waits_at_first_named in H2.
    now destruct (waits_at spark name progressions m).
Qed.

Lemma poll_single name count k :
  poll (fun _ => [job name count]) name k = [job name count].
Proof.
  unfold poll, matching. cbn. now rewrite String.eqb_refl.
Qed.

Lemma progress_count_job name count :
  progress_count (job name count) = Z.of_nat count.
Proof. unfold progress_count, job. cbn. now rewrite repeat_length. Qed.

(** With at most one match, the first match is any match. *)
Lemma threshold_reached_unique spark name progressions k :
  List.length (poll spark name k) <= 1 ->
  (threshold_reached spark name progressions k <->
   exists query,
     In query (spark k) /\
     StreamingQuery.name query = Some name /\
     (progressions <= progress_count query)%Z).
Proof.
  intros Hone. unfold threshold_reached. split.
  - intros (query0 & rest & Hp & Hc). exists query0.
    assert (Hin : In query0 (poll spark name k)) by (rewrite Hp; now left).
    apply matching_In in Hin. tauto.
  - intros (query & Hin & Hname & Hc).
    assert (Hm : In query (poll spark name k)) by now apply matching_In.
    destruct (poll spark name k) as [|query0 [|query1 rest]];
      cbn in Hone; [contradiction| |lia].
    destruct Hm as [->|[]]. now exists query, [].
Qed.

(* ===================================================================== *)
(** * Worked runs *)
(* ===================================================================== *)

Example ready_message_lesson03 :
  ready_message "lesson03_stream" =
  "The stream lesson03_stream is active and ready.".
Proof. reflexivity. Qed.

(** The scenario of the specification, with the default threshold: four
    enumerations, three sleeps, then the message. *)
Example run_job_A_returns :
  run job_A_scenario 11 "job-A" None =
  Returned tt
    {| clock := 4;
       trace := [EvActive [job "job-A" 0]; EvSleep 5;
                 EvActive [job "job-A" 1]; EvSleep 5;
                 EvActive [job "job-A" 2]; EvSleep 5;
                 EvActive [job "job-A" 3];
                 EvPrint "The stream job-A is active and ready."] |}.
Proof. vm_compute. reflexivity. Qed.

(** One step short of that, the call has not printed yet. *)
Example run_job_A_pending :
  run job_A_scenario 10 "job-A" None =
  Pending
    {| clock := 4;
       trace := [EvActive [job "job-A" 0]; EvSleep 5;
                 EvActive [job "job-A" 1]; EvSleep 5;
                 EvActive [job "job-A" 2]; EvSleep 5;
                 EvActive [job "job-A" 3]] |}.
Proof. vm_compute. reflexivity. Qed.

(** Two queries share the name.  At the first enumeration the one that is
    enumerated first has no progress and the other has nine reports: the
    call sleeps.  At the second the first has three and the other none: the
    call returns. *)
Example run_same_name_twice :
  run (script [[job "job-A" 0; job "job-A" 9]; [job "job-A" 3; job "job-A" 0]])
      5 "job-A" (Some 3%Z) =
  Returned tt
    {| clock := 2;
       trace := [EvActive [job "job-A" 0; job "job-A" 9]; EvSleep 5;
                 EvActive [job "job-A" 3; job "job-A" 0];
                 EvPrint "The stream job-A is active and ready."] |}.
Proof. vm_compute. reflexivity. Qed.

(** An unnamed query and a query of another name are passed over. *)
Example run_skips_other_queries :
  run (fun _ => [ {| StreamingQuery.name := None;
                     StreamingQuery.recentProgress := [] |};
                  job "other" 8; job "job-A" 3 ])
      2 "job-A" None =
  Returned tt
    {| clock := 1;
       trace := [EvActive [ {| StreamingQuery.name := None;
                               StreamingQuery.recentProgress := [] |};
                            job "other" 8; job "job-A" 3 ];
                 EvPrint "The stream job-A is active and ready."] |}.
Proof. vm_compute. reflexivity. Qed.

(* ===================================================================== *)
(** * Properties of the waiter *)
(* ===================================================================== *)

(** C1.  The call returns exactly when an enumeration of the active set
    yields, as the first query with the given name, one whose progress log
    has at least [progressions] entries; while the matching list is empty
    or its first entry has fewer, the call sleeps and retries (it is
    pending for as long as every test made so far found that).  On return
    the last enumeration in the trace holds a query with the given name and
    at least [progressions] progress reports.  Where at most one active
    query bears the name, "the first match has reached the threshold" says
    the same as "the enumeration holds a query of that name that has reached
    it".  All of this holds for every name and every threshold, in
    particular for non-empty names and positive thresholds. *)
Theorem until_stream_is_ready_returns_when_ready
    (spark : nat -> list StreamingQuery.t) (name : string)
    (progressions : Z) (fuel : nat) :
  (forall w,
     run spark fuel name (Some progressions) = Returned tt w <->
     exists n,
       steps_to_return n <= fuel /\
       w = returned_world spark name n /\
       threshold_reached spark name progressions n /\
       forall m, m < n -> must_wait spark name progressions m) /\
  ((exists w, run spark fuel name (Some progressions) = Pending w) <->
   forall m, steps_to_return m <= fuel ->
             must_wait spark name progressions m) /\
  (forall w,
     run spark fuel name (Some progressions) = Returned tt w ->
     exists n before query,
       trace w =
         (before ++ [EvActive (spark n); EvPrint (ready_message name)])%list /\
       In query (spark n) /\
       StreamingQuery.name query = Some name /\
       (progressions <= progress_count query)%Z) /\
  (forall k,
     List.length (poll spark name k) <= 1 ->
     (threshold_reached spark name progressions k <->
      exists query,
        In query (spark k) /\
        StreamingQuery.name query = Some name /\
        (progressions <= progress_count query)%Z)).
Proof.
  split; [|split; [|split]].
  - intros w. rewrite run_returned_iff.
    split; intros (n & H); exists n.
    + destruct H as (Hf & Hle & ->). apply first_ready_iff in Hf.
      tauto.
    + destruct H as (Hle & -> & Hr & Hw).
      repeat split; auto; try (now apply waits_at_false).
      intros m Hm. now apply waits_at_true, Hw.
  - rewrite run_pending_iff.
    split; intros H m Hm; apply waits_at_true; auto.
  - intros w H. apply run_returned_iff in H.
    destruct H as (n & [Hn _] & _ & ->).
    apply waits_at_false in Hn. destruct Hn as (query0 & rest & Hp & Hc).
    destruct (polled_last spark n) as [before Hb].
    exists n, before, query0.
    assert (Hin : In query0 (poll spark name n)) by (rewrite Hp; now left).
    apply matching_In in Hin. destruct Hin as [Hin Hname].
    repeat split; auto.
    cbn [returned_world trace]. rewrite Hb. now rewrite <- app_assoc.
  - intros k Hone. now apply threshold_reached_unique.
Qed.

(** C2.  For a job whose progress count grows monotonically over the
    enumerations, the call returns at the first enumeration [n] at which the
    count has reached the threshold: with steps enough it returns there,
    after [n] sleeps, no run returns at any other enumeration, and with
    fewer steps it is still pending.  Without step counts: the call is the
    tree that returns in the world reached at enumeration [n].  The job is
    the first query of each enumeration whose name is the given name,
    whatever else the enumeration holds, and [count k] is its progress
    count at enumeration [k]. *)
Theorem until_stream_is_ready_returns_at_first_reach
    (spark : nat -> list StreamingQuery.t) (name : string)
    (progressions : Z) (count : nat -> Z) (n : nat) :
  (forall k, k <= n ->
     exists query0,
       first_named name (spark k) query0 /\
       progress_count query0 = count k) ->
  (forall k, k < n -> (count k <= count (S k))%Z) ->
  (progressions <= count n)%Z ->
  (forall m, m < n -> (count m < progressions)%Z) ->
  (forall fuel, steps_to_return n <= fuel ->
     run spark fuel name (Some progressions) =
     Returned tt (returned_world spark name n)) /\
  (forall fuel w,
     run spark fuel name (Some progressions) = Returned tt w ->
     clock w = S n /\ slept (trace w) = repeat 5%Z n) /\
  (forall fuel, fuel < steps_to_return n ->
     exists w, run spark fuel name (Some progressions) = Pending w) /\
  interp_state (spark_handler spark)
    (until_stream_is_ready name (Some progressions)) boot
  ≈ Ret (returned_world spark name n, tt).
Proof.
  intros Hcount _ Hreach Hbelow.
  assert (Hpoll : forall k, k <= n ->
            exists query0 rest,
              poll spark name k = query0 :: rest /\
              progress_count query0 = count k).
  { intros k Hk. destruct (Hcount k Hk) as (query0 & Hq & Hc).
    apply first_named_matching in Hq. destruct Hq as [rest Hq].
    now exists query0, rest. }
  assert (Hf : first_ready spark name progressions n).
  { apply first_ready_iff. split.
    - destruct (Hpoll n (le_n n)) as (query0 & rest & Hp & Hc).
      exists query0, rest. split; [exact Hp|]. now rewrite Hc.
    - intros m Hm. right.
      destruct (Hpoll m ltac:(lia)) as (query0 & rest & Hp & Hc).
      exists query0, rest. split; [exact Hp|]. rewrite Hc. now apply Hbelow. }
  split; [|split; [|split]].
  - intros fuel Hle. now apply run_returns.
  - intros fuel w H. apply run_returned_iff in H.
    destruct H as (n' & Hf' & _ & ->).
    rewrite (first_ready_unique _ _ _ _ _ Hf' Hf).
    cbn [returned_world clock trace].
    split; [reflexivity|].
    unfold slept. rewrite flat_map_app. fold (slept (polled spark n)).
    rewrite slept_polled. cbn. now rewrite app_nil_r.
  - intros fuel Hlt. apply run_pending_iff. intros m Hm.
    apply Hf. unfold steps_to_return in *. lia.
  - now apply until_stream_is_ready_converges.
Qed.

Lemma until_stream_is_ready_returns_at_first_reach_witness :
  (forall fuel, steps_to_return 3 <= fuel ->
     run job_A_in_company_scenario fuel "job-A" (Some 3%Z) =
     Returned tt (returned_world job_A_in_company_scenario "job-A" 3)) /\
  (forall fuel w,
     run job_A_in_company_scenario fuel "job-A" (Some 3%Z) = Returned tt w ->
     clock w = 4 /\ slept (trace w) = [5; 5; 5]%Z) /\
  (forall fuel, fuel < steps_to_return 3 ->
     exists w,
       run job_A_in_company_scenario fuel "job-A" (Some 3%Z) = Pending w) /\
  interp_state (spark_handler job_A_in_company_scenario)
    (until_stream_is_ready "job-A" (Some 3%Z)) boot
  ≈ Ret (returned_world job_A_in_company_scenario "job-A" 3, tt).
Proof.
  apply (until_stream_is_ready_returns_at_first_reach
           job_A_in_company_scenario "job-A" 3%Z Z.of_nat 3).
  - intros k Hk.
    destruct k as [|[|[|[|k]]]]; try lia.
    + exists (job "job-A" 0). split; [|reflexivity].
      exists [job "other" 5], []. repeat split.
      intros query [<-|[]]. discriminate.
    + exists (job "job-A" 1). split; [|reflexivity].
      exists [job "other" 5], []. repeat split.
      intros query [<-|[]]. discriminate.
    + exists (job "job-A" 2). split; [|reflexivity].
      exists [ {| StreamingQuery.name := None;
                  StreamingQuery.recentProgress := [] |} ], [].
      repeat split. intros query [<-|[]]. discriminate.
    + exists (job "job-A" 3). split; [|reflexivity].
      exists [job "other" 5], [job "job-A" 0]. repeat split.
      intros query [<-|[]]. discriminate.
  - intros k _. lia.
  - reflexivity.
  - intros m Hm. lia.
Defined.

(** C3.  If no enumeration of the active set ever yields a query with the
    given name, the call never returns: after any number of steps it is
    still pending and has printed nothing, and it keeps retrying without
    bound (for every [retries] some run has slept that many times and is
    still pending).  A run has no other outcome than returning or being
    pending: there is no error result and no give-up path.  Without step
    counts: the call is the silently diverging tree. *)
Theorem until_stream_is_ready_blocks_forever_without_job
    (spark : nat -> list StreamingQuery.t) (name : string)
    (progressions : option Z) :
  (forall k query, In query (spark k) ->
                   StreamingQuery.name query <> Some name) ->
  (forall fuel, exists w,
     run spark fuel name progressions = Pending w /\ printed (trace w) = []) /\
  (forall retries, exists fuel w,
     run spark fuel name progressions = Pending w /\
     slept (trace w) = repeat 5%Z retries) /\
  interp_state (spark_handler spark)
    (until_stream_is_ready name progressions) boot
  ≈ ITree.spin.
Proof.
  intros Habsent.
  assert (HW : forall p m, waits_at spark name p m = true).
  { intros p m. apply waits_at_true. left. now apply matching_nil, Habsent. }
  assert (Hp : forall fuel, exists w,
             run spark fuel name progressions = Pending w).
  { intros fuel. destruct progressions as [p|]; [|rewrite run_default];
      apply run_pending_iff; intros; apply HW. }
  split; [|split].
  - intros fuel. destruct (Hp fuel) as [w Hw]. exists w.
    split; [exact Hw|]. now apply printed_pending in Hw.
  - intros retries. exists (S (3 * retries + 0)), (after_poll spark retries).
    split.
    + destruct progressions as [p|]; [|rewrite run_default];
        apply (run_pending spark name _ retries 0); auto; lia.
    + apply slept_polled.
  - apply exec_pending_spin. exact Hp.
Qed.

Lemma until_stream_is_ready_blocks_forever_without_job_witness :
  (forall fuel, exists w,
     run (fun _ => [job "other_stream" 7]) fuel "lesson03_stream" None
       = Pending w /\ printed (trace w) = []) /\
  (forall retries, exists fuel w,
     run (fun _ => [job "other_stream" 7]) fuel "lesson03_stream" None
       = Pending w /\
     slept (trace w) = repeat 5%Z retries) /\
  interp_state (spark_handler (fun _ => [job "other_stream" 7]))
    (until_stream_is_ready "lesson03_stream" None) boot
  ≈ ITree.spin.
Proof.
  apply (until_stream_is_ready_blocks_forever_without_job
           (fun _ => [job "other_stream" 7]) "lesson03_stream" None).
  intros k query [<-|[]]. cbn. discriminate.
Defined.

(** C4.  If at the first inspection of the active set the first query whose
    name is the given name is already at or above the threshold, whatever
    other queries are enumerated before or after it, the call returns after
    that one enumeration and its print, and no run of it ever sleeps. *)
Theorem until_stream_is_ready_no_wait_when_ready_at_once
    (spark : nat -> list StreamingQuery.t) (name : string)
    (progressions : Z) :
  (exists query0,
     first_named name (spark 0) query0 /\
     (progressions <= progress_count query0)%Z) ->
  (forall fuel, 2 <= fuel ->
     run spark fuel name (Some progressions) =
     Returned tt
       {| clock := 1;
          trace := [EvActive (spark 0); EvPrint (ready_message name)] |}) /\
  (forall fuel,
     slept (trace (world_of (run spark fuel name (Some progressions)))) = []).
Proof.
  intros Hready.
  assert (Hf : first_ready spark name progressions 0).
  { split; [now apply waits_at_first_named|intros m Hm; lia]. }
  split.
  - intros fuel Hle. now apply run_returns.
  - intros fuel.
    destruct (run_cases spark name progressions fuel)
      as [(n & Hn & _ & Hrun)|[HW [[_ Hrun]|(j & r & Hr & Hfuel & Hrun)]]];
      rewrite Hrun; cbn [world_of].
    + rewrite (first_ready_unique _ _ _ _ _ Hn Hf). reflexivity.
    + reflexivity.
    + assert (j = 0 /\ r = 0) as [-> ->].
      { destruct (le_lt_dec 2 fuel) as [Hle|Hlt]; [|lia].
        specialize (HW 0 Hle). destruct Hf as [Hf _]. congruence. }
      reflexivity.
Qed.

Lemma until_stream_is_ready_no_wait_when_ready_at_once_witness :
  (forall fuel, 2 <= fuel ->
     run (fun _ => [job "other" 0; job "lesson03_stream" 3]) fuel
       "lesson03_stream" (Some 3%Z) =
     Returned tt
       {| clock := 1;
          trace := [EvActive [job "other" 0; job "lesson03_stream" 3];
                    EvPrint (ready_message "lesson03_stream")] |}) /\
  (forall fuel,
     slept (trace (world_of
       (run (fun _ => [job "other" 0; job "lesson03_stream" 3]) fuel
          "lesson03_stream" (Some 3%Z)))) = []).
Proof.
  apply (until_stream_is_ready_no_wait_when_ready_at_once
           (fun _ => [job "other" 0; job "lesson03_stream" 3])
           "lesson03_stream" 3%Z).
  exists (job "lesson03_stream" 3). split.
  - exists [job "other" 0], []. repeat split.
    intros query [<-|[]]. discriminate.
  - vm_compute. discriminate.
Defined.

(** C5.  When several active queries share the name, only the first of them
    in enumeration order decides.  If [query0] has the name and no query
    enumerated before it has, the loop test on that enumeration is the
    comparison of [query0]'s count alone, whatever is enumerated after it,
    same-named queries included.  The call returns exactly at the first
    enumeration whose first query of that name has reached the threshold.
    And two engines whose enumerations have the same first query of that
    name return at the same enumeration, whatever their other queries
    report. *)
Theorem until_stream_is_ready_first_match_decides
    (spark : nat -> list StreamingQuery.t) (name : string)
    (progressions : Z) (fuel : nat) :
  (forall k before query0 after,
     spark k = (before ++ query0 :: after)%list ->
     (forall query, In query before ->
                    StreamingQuery.name query <> Some name) ->
     StreamingQuery.name query0 = Some name ->
     waits_at spark name progressions k =
     (progress_count query0 <? progressions)%Z) /\
  (forall w,
     run spark fuel name (Some progressions) = Returned tt w <->
     exists n,
       steps_to_return n <= fuel /\
       w = returned_world spark name n /\
       first_enumerated_ready spark name progressions n /\
       forall m, m < n -> ~ first_enumerated_ready spark name progressions m) /\
  (forall spark',
     (forall k query0,
        first_named name (spark k) query0 <->
        first_named name (spark' k) query0) ->
     forall c,
       (exists w, run spark fuel name (Some progressions) = Returned tt w /\
                  clock w = c) <->
       (exists w', run spark' fuel name (Some progressions) = Returned tt w' /\
                   clock w' = c)).
Proof.
  split; [|split].
  - intros k before query0 after Hk Hbefore Hname.
    assert (Hq : first_named name (spark k) query0)
      by now exists before, after.
    apply first_named_matching in Hq. destruct Hq as [rest Hq].
    unfold waits_at, poll. rewrite Hq. reflexivity.
  - intros w. rewrite run_returned_iff.
    split; intros (n & H); exists n.
    + destruct H as (Hf & Hle & ->). apply first_ready_first_named in Hf.
      tauto.
    + destruct H as (Hle & -> & H1 & H2). repeat split; auto;
        apply first_ready_first_named; auto.
  - intros spark' Hsame c.
    assert (Hr : forall k,
              first_enumerated_ready spark name progressions k <->
              first_enumerated_ready spark' name progressions k).
    { intros k. unfold first_enumerated_ready.
      split; intros (query0 & Hq & Hc); exists query0;
        (split; [now apply Hsame|exact Hc]). }
    assert (Heq : forall n, first_ready spark name progressions n <->
                            first_ready spark' name progressions n).
    { intros n. rewrite !first_ready_first_named, Hr.
      split; intros [H1 H2]; (split; [exact H1|]); intros m Hm H;
        apply (H2 m Hm); now apply Hr. }
    split; intros (w & Hrun & Hc); apply run_returned_iff in Hrun;
      destruct Hrun as (n & Hf & Hle & ->); apply Heq in Hf.
    + exists (returned_world spark' name n). split; [|exact Hc].
      apply run_returned_iff. now exists n.
    + exists (returned_world spark name n). split; [|exact Hc].
      apply run_returned_iff. now exists n.
Qed.

(** Two queries named "job-A", enumerated after a query of another name:
    the call sleeps on the first enumeration, where the first of the two
    has no progress although the second has nine reports and the other
    query five, and returns on the second enumeration, where the first of
    the two has three although the second and the other query have none. *)
Lemma until_stream_is_ready_first_match_decides_witness :
  waits_at same_name_twice_scenario "job-A" 3%Z 0 = true /\
  waits_at same_name_twice_scenario "job-A" 3%Z 1 = false /\
  run same_name_twice_scenario 5 "job-A" (Some 3%Z) =
    Returned tt (returned_world same_name_twice_scenario "job-A" 1).
Proof.
  destruct (until_stream_is_ready_first_match_decides
              same_name_twice_scenario "job-A" 3%Z 5) as (Htest & Hrun & _).
  assert (Hother : forall query : StreamingQuery.t,
            In query [job "other" 5] ->
            StreamingQuery.name query <> Some "job-A")
    by (intros query [<-|[]]; discriminate).
  assert (Hother' : forall query : StreamingQuery.t,
            In query [job "other" 0] ->
            StreamingQuery.name query <> Some "job-A")
    by (intros query [<-|[]]; discriminate).
  split; [|split].
  - apply (Htest 0 [job "other" 5] (job "job-A" 0) [job "job-A" 9]);
      [reflexivity|exact Hother|reflexivity].
  - apply (Htest 1 [job "other" 0] (job "job-A" 3) [job "job-A" 0]);
      [reflexivity|exact Hother'|reflexivity].
  - apply Hrun. exists 1. split; [vm_compute; lia|]. split; [reflexivity|].
    split.
    + exists (job "job-A" 3). split; [|vm_compute; discriminate].
      now exists [job "other" 0], [job "job-A" 0].
    + intros m Hm (query0 & (before & after & Hk & Hbefore & Hname) & Hc).
      assert (m = 0) as -> by lia.
      destruct before as [|q0 [|q1 before]].
      * injection Hk as <- _. discriminate Hname.
      * injection Hk as _ <- _. vm_compute in Hc. now apply Hc.
      * injection Hk as _ <- _. apply (Hbefore (job "job-A" 0)).
        -- right. now left.
        -- reflexivity.
Defined.

(** C6.  The comparison made at an enumeration uses the progress-log length
    that this enumeration shows.  If every earlier test made the call wait,
    then what the call does on enumeration [k] is fixed by the first match
    of enumeration [k] alone: it returns if that query's count is at least
    the threshold and sleeps again if it is below or if nothing matches.  No
    assumption is made on how the earlier lengths compare with the latest
    one, so the lengths may have gone down. *)
Theorem until_stream_is_ready_compares_latest_length
    (spark : nat -> list StreamingQuery.t) (name : string)
    (progressions : Z) (k : nat) :
  (forall m, m < k -> waits_at spark name progressions m = true) ->
  run spark (steps_to_return k) name (Some progressions) =
  match first_match name (spark k) with
  | Some query0 =>
      if (progress_count query0 <? progressions)%Z
      then Pending {| clock := S k; trace := polled spark k ++ [EvSleep 5] |}
      else Returned tt (returned_world spark name k)
  | None => Pending {| clock := S k; trace := polled spark k ++ [EvSleep 5] |}
  end.
Proof.
  intros Hbefore.
  pose proof (waiting_first_match name (spark k) progressions) as Hw.
  fold (poll spark name k) in Hw.
  fold (waits_at spark name progressions k) in Hw.
  assert (Hcase :
    run spark (steps_to_return k) name (Some progressions) =
    if waits_at spark name progressions k
    then Pending {| clock := S k; trace := polled spark k ++ [EvSleep 5] |}
    else Returned tt (returned_world spark name k)).
  { destruct (waits_at spark name progressions k) eqn:Hk.
    - replace (steps_to_return k) with (S (3 * k + 1))
        by (unfold steps_to_return; lia).
      apply (run_pending spark name progressions k 1); auto.
    - apply run_returns; [now split|lia]. }
  rewrite Hcase, Hw.
  now destruct (first_match name (spark k)).
Qed.

Lemma until_stream_is_ready_compares_latest_length_witness :
  run shrinking_scenario (steps_to_return 1) "job-A" (Some 3%Z) =
    Pending {| clock := 2;
               trace := [EvActive [job "job-A" 2]; EvSleep 5;
                         EvActive [job "job-A" 1]; EvSleep 5] |} /\
  run shrinking_scenario (steps_to_return 2) "job-A" (Some 3%Z) =
    Returned tt (returned_world shrinking_scenario "job-A" 2).
Proof.
  split.
  - apply (until_stream_is_ready_compares_latest_length
             shrinking_scenario "job-A" 3%Z 1).
    intros m Hm. destruct m as [|m]; [reflexivity|lia].
  - apply (until_stream_is_ready_compares_latest_length
             shrinking_scenario "job-A" 3%Z 2).
    intros m Hm. destruct m as [|[|m]]; [reflexivity|reflexivity|lia].
Defined.

(** C7.  In every trace of the call, returned or still pending, each sleep
    lasts exactly 5, and what lies between two successive enumerations of
    the active set is exactly one sleep of 5: the interval never grows and
    never varies. *)
Theorem until_stream_is_ready_sleeps_five_between_polls
    (spark : nat -> list StreamingQuery.t) (name : string)
    (progressions : option Z) (fuel : nat) :
  (forall secs,
     In (EvSleep secs) (trace (world_of (run spark fuel name progressions))) ->
     secs = 5%Z) /\
  (forall pre a mid b post,
     trace (world_of (run spark fuel name progressions)) =
       (pre ++ EvActive a :: mid ++ EvActive b :: post)%list ->
     (forall x, ~ In (EvActive x) mid) ->
     mid = [EvSleep 5]).
Proof.
  destruct (run_trace_shape spark name progressions fuel)
    as [Hnil|(t & Heq & Ht)]; cbv zeta in *.
  - rewrite Hnil. split.
    + intros secs [].
    + intros pre a mid b post H. destruct pre; discriminate.
  - rewrite Heq. split.
    + intros secs [H|H]; [discriminate|]. now apply (tail_shape_sleeps t).
    + intros pre a mid b post H Hmid.
      now apply (tail_shape_gap t Ht (spark 0) pre a mid b post).
Qed.

(** C8.  A call that leaves [progressions] out runs as the call with
    threshold 3: it returns exactly at the first enumeration whose first
    match has at least 3 progress reports.  So a job that stays at 2 reports
    keeps such a call pending for ever, and a job with 3 reports lets it
    return at once. *)
Theorem until_stream_is_ready_default_threshold_is_three
    (spark : nat -> list StreamingQuery.t) (name : string) (fuel : nat) :
  run spark fuel name None = run spark fuel name (Some 3%Z) /\
  (forall w,
     run spark fuel name None = Returned tt w <->
     exists n,
       steps_to_return n <= fuel /\
       w = returned_world spark name n /\
       threshold_reached spark name 3%Z n /\
       forall m, m < n -> must_wait spark name 3%Z m) /\
  (exists w, run (fun _ => [job name 2]) fuel name None = Pending w) /\
  run (fun _ => [job name 3]) (2 + fuel) name None =
    Returned tt (returned_world (fun _ => [job name 3]) name 0).
Proof.
  split; [reflexivity|split; [|split]].
  - intros w. rewrite run_default, run_returned_iff.
    split; intros (n & H); exists n.
    + destruct H as (Hf & Hle & ->). apply first_ready_iff in Hf. tauto.
    + destruct H as (Hle & -> & Hr & Hw).
      repeat split; auto; try (now apply waits_at_false).
      intros m Hm. now apply waits_at_true, Hw.
  - rewrite run_default. apply run_pending_iff. intros m _.
    apply waits_at_true. right. exists (job name 2), [].
    split; [apply poll_single|]. rewrite progress_count_job. lia.
  - rewrite run_default. apply run_returns.
    + split; [|intros m Hm; lia].
      apply waits_at_false. exists (job name 3), [].
      split; [apply poll_single|]. rewrite progress_count_job. lia.
    + unfold steps_to_return. lia.
Qed.

(** C9.  A call that returns has printed exactly one line, the message that
    names the job, as the last thing it did, and hands back nothing but the
    unit value; a call that is still pending has printed nothing. *)
Theorem until_stream_is_ready_prints_once_on_return
    (spark : nat -> list StreamingQuery.t) (name : string)
    (progressions : option Z) (fuel : nat) :
  (forall r w,
     run spark fuel name progressions = Returned r w ->
     r = tt /\
     printed (trace w) = ["The stream " ++ name ++ " is active and ready."] /\
     exists n,
       trace w =
         (polled spark n ++
          [EvPrint ("The stream " ++ name ++ " is active and ready.")])%list) /\
  (forall w,
     run spark fuel name progressions = Pending w ->
     printed (trace w) = []).
Proof.
  split.
  - intros r w H. apply run_returned_world in H. destruct H as [n ->].
    split; [now destruct r|]. split.
    + apply printed_returned_world.
    + now exists n.
  - intros w H. now apply printed_pending in H.
Qed.

(** C10.  With a threshold of 0 or less the call still waits for a query
    with the given name to show up, and returns at the first enumeration
    that holds one, however many progress reports that query has: it
    returns exactly at the first enumeration in which the name is present,
    and is pending exactly as long as the name is absent from every
    enumeration tested so far. *)
Theorem until_stream_is_ready_nonpositive_threshold_waits_for_presence
    (spark : nat -> list StreamingQuery.t) (name : string)
    (progressions : Z) (fuel : nat) :
  (progressions <= 0)%Z ->
  (forall w,
     run spark fuel name (Some progressions) = Returned tt w <->
     exists n,
       steps_to_return n <= fuel /\
       w = returned_world spark name n /\
       (exists query, In query (spark n) /\
                      StreamingQuery.name query = Some name) /\
       forall m query, m < n -> In query (spark m) ->
                       StreamingQuery.name query <> Some name) /\
  ((exists w, run spark fuel name (Some progressions) = Pending w) <->
   forall m query, steps_to_return m <= fuel -> In query (spark m) ->
                   StreamingQuery.name query <> Some name).
Proof.
  intros Hp.
  assert (Hwait : forall k,
    waits_at spark name progressions k = true <->
    forall query, In query (spark k) -> StreamingQuery.name query <> Some name).
  { intros k. rewrite waits_at_true. unfold must_wait, poll.
    rewrite matching_nil. split; [|now left].
    intros [H|(query0 & rest & _ & Hlt)]; [exact H|].
    unfold progress_count in Hlt. lia. }
  assert (Hready : forall k,
    waits_at spark name progressions k = false <->
    exists query, In query (spark k) /\ StreamingQuery.name query = Some name).
  { intros k. split.
    - intros H. apply waits_at_false in H.
      destruct H as (query0 & rest & Hpoll & _). exists query0.
      apply matching_In. unfold poll in Hpoll. rewrite Hpoll. now left.
    - intros (query & Hin & Hname).
      destruct (waits_at spark name progressions k) eqn:E; [|reflexivity].
      exfalso. exact (proj1 (Hwait k) E query Hin Hname). }
  split.
  - intros w. rewrite run_returned_iff. unfold first_ready.
    split; intros (n & H); exists n.
    + destruct H as ([Hn Hlt] & Hle & ->). repeat split; auto.
      * now apply Hready.
      * intros m query Hm. apply (proj1 (Hwait m)). now apply Hlt.
    + destruct H as (Hle & -> & Hn & Hlt). repeat split; auto.
      * now apply Hready.
      * intros m Hm. apply Hwait. intros query. now apply Hlt.
  - rewrite run_pending_iff. split.
    + intros H m query Hm. apply (proj1 (Hwait m)). now apply H.
    + intros H m Hm. apply Hwait. intros query. now apply H.
Qed.

Lemma until_stream_is_ready_nonpositive_threshold_waits_for_presence_witness :
  (forall w,
     run late_idle_scenario 5 "job-A" (Some 0%Z) = Returned tt w <->
     exists n,
       steps_to_return n <= 5 /\
       w = returned_world late_idle_scenario "job-A" n /\
       (exists query, In query (late_idle_scenario n) /\
                      StreamingQuery.name query = Some "job-A") /\
       forall m query, m < n -> In query (late_idle_scenario m) ->
                       StreamingQuery.name query <> Some "job-A") /\
  ((exists w, run late_idle_scenario 5 "job-A" (Some 0%Z) = Pending w) <->
   forall m query, steps_to_return m <= 5 -> In query (late_idle_scenario m) ->
                   StreamingQuery.name query <> Some "job-A").
Proof.
  apply (until_stream_is_ready_nonpositive_threshold_waits_for_presence
           late_idle_scenario "job-A" 0%Z 5).
  lia.
Defined.

(* ===================================================================== *)
(** * Further properties: thresholds, the stop loop, the two cells *)
(* ===================================================================== *)

Section StepsFacts.

Context {E : Type -> Type} {St : Type}.
Variable handler : forall T, E T -> St -> T * St.

Lemma steps_eq_itree {R} fuel :
  forall (t t' : itree E R) s,
    t ≅ t' -> steps handler fuel t s = steps handler fuel t' s.
Proof.
  induction fuel as [|fuel IH]; intros t t' s H;
    apply eqit_inv in H; cbn; unfold observe;
    destruct (_observe t) as [r|u|X e k], (_observe t') as [r'|u'|X' e' k'];
    cbn in H; try contradiction; try discriminate; subst; auto.
  - destruct H as [p [He Hk]]. destruct p. cbn in He, Hk. subst.
    destruct (handler X e' s) as [a s'].
    apply IH, Hk.
Qed.

#[global] Instance steps_Proper {R} fuel :
  Proper (eq_itree eq ==> eq ==> eq) (@steps E St handler R fuel).
Proof. intros t t' H s s' <-. now apply steps_eq_itree. Qed.

Lemma steps_Ret {R} fuel (r : R) s :
  steps handler fuel (Ret r) s = Done r s.
Proof. destruct fuel; reflexivity. Qed.

Lemma steps_Tau {R} fuel (t : itree E R) s :
  steps handler (S fuel) (Tau t) s = steps handler fuel t s.
Proof. reflexivity. Qed.

Lemma steps_Vis {R X} fuel (e : E X) (k : X -> itree E R) s :
  steps handler (S fuel) (Vis e k) s =
  steps handler fuel (k (fst (handler X e s))) (snd (handler X e s)).
Proof. cbn. destruct (handler X e s); reflexivity. Qed.

(** A result, once reached, stays with more steps. *)
Lemma steps_more {R} fuel :
  forall (t : itree E R) s r s' spare,
    steps handler fuel t s = Done r s' ->
    steps handler (fuel + spare) t s = Done r s'.
Proof.
  induction fuel as [|fuel IH]; intros t s r s' spare H.
  - cbn in H. destruct spare as [|spare]; cbn;
      destruct (observe t); try discriminate; exact H.
  - cbn in H. cbn. destruct (observe t) as [r0|t0|X e k]; auto.
    destruct (handler X e s) as [a s0]. auto.
Qed.

(** Sequencing: the second part starts where the first one stopped, and
    does not start while the first one is still running. *)
Lemma steps_bind {R U} (k : R -> itree E U) fuel :
  forall (t : itree E R) s,
    (exists s', steps handler fuel t s = Running s' /\
                steps handler fuel (ITree.bind t k) s = Running s') \/
    (exists r s' left,
       steps handler fuel t s = Done r s' /\ left <= fuel /\
       steps handler fuel (ITree.bind t k) s = steps handler left (k r) s').
Proof.
  induction fuel as [|fuel IH]; intros t s;
    rewrite (steps_eq_itree _ t _ s (itree_eta t));
    rewrite (steps_eq_itree _ (ITree.bind t k)
               (ITree.bind (go (observe t)) k) s)
      by (now rewrite <- itree_eta);
    destruct (observe t) as [r0|t0|X e k0].
  - right. exists r0, s, 0. repeat split; auto; now rewrite bind_ret_l.
  - left. exists s. split; auto; now rewrite bind_tau.
  - left. exists s. split; auto; now rewrite bind_vis.
  - right. exists r0, s, (S fuel). repeat split; auto;
      now rewrite bind_ret_l.
  - destruct (IH t0 s) as [(s' & H1 & H2)|(r & s' & left & H1 & Hle & H2)].
    + left. exists s'. split; [exact H1|]. now rewrite bind_tau, steps_Tau.
    + right. exists r, s', left. repeat split; auto;
        now rewrite bind_tau, steps_Tau.
  - destruct (IH (k0 (fst (handler X e s))) (snd (handler X e s)))
      as [(s' & H1 & H2)|(r & s' & left & H1 & Hle & H2)].
    + left. exists s'. split; [now rewrite steps_Vis|].
      now rewrite bind_vis, steps_Vis.
    + right. exists r, s', left. split; [now rewrite steps_Vis|].
      split; [lia|]. now rewrite bind_vis, steps_Vis.
Qed.

Lemma steps_bind_Done {R U} (k : R -> itree E U) fuel :
  forall (t : itree E R) s r s' fuel2 u s2,
    steps handler fuel t s = Done r s' ->
    steps handler fuel2 (k r) s' = Done u s2 ->
    steps handler (fuel + fuel2) (ITree.bind t k) s = Done u s2.
Proof.
  induction fuel as [|fuel IH]; intros t s r s' fuel2 u s2 H1 H2;
    revert H1; rewrite (itree_eta t);
    destruct (observe t) as [r0|t0|X e k0]; cbn [steps observe _observe];
    try discriminate.
  - intros [= <- <-]. now rewrite bind_ret_l.
  - intros [= <- <-]. rewrite bind_ret_l.
    rewrite Nat.add_comm. now apply steps_more.
  - intros H1. rewrite bind_tau. cbn [Nat.add]. rewrite steps_Tau. eauto.
  - intros H1. rewrite bind_vis. cbn [Nat.add]. rewrite steps_Vis.
    destruct (handler X e s) as [a s0]. cbn [fst snd]. eauto.
Qed.

End StepsFacts.

Arguments stopping_message : simpl never.

Section NotebookFacts.

Variable spark : nat -> list StreamingQuery.t.

Lemma handle_notebook_lift T (e : sparkE T) before w :
  handle_notebook spark T (inl1 e) (lift before w) =
  (fst (handle spark e w), lift before (snd (handle spark e w))).
Proof.
  destruct e; cbn; unfold lift; cbn;
    now rewrite map_app, app_assoc.
Qed.

(** The waiter, run inside the notebook, does what it does on its own. *)
Lemma run_notebook_translate {R} fuel :
  forall (t : itree sparkE R) before w,
    run_notebook spark fuel (translate (@inl1 sparkE streamE) t)
      (lift before w) =
    match exec spark fuel t w with
    | Returned r w' => Done r (lift before w')
    | Pending w' => Running (lift before w')
    end.
Proof.
  unfold run_notebook.
  induction fuel as [|fuel IH]; intros t before w;
    rewrite unfold_translate; cbn [exec];
    destruct (observe t) as [r|t0|X e k]; cbn [translateF].
  - apply steps_Ret.
  - reflexivity.
  - reflexivity.
  - apply steps_Ret.
  - rewrite steps_Tau. apply IH.
  - rewrite steps_Vis, handle_notebook_lift. cbn [fst snd].
    destruct (handle spark e w) as [a w']. apply IH.
Qed.

Lemma lift_nil_boot : lift [] boot = opening.
Proof. reflexivity. Qed.

Lemma session_eta (s : session) :
  {| enumerations := enumerations s; history := history s |} = s.
Proof. now destruct s. Qed.

(** The body of the stop loop on a list of streams, after any number of
    steps. *)
Lemma run_for_each_stop streams : forall fuel s,
  run_notebook spark fuel (for_each stop_stream streams) s =
  if (2 * List.length streams <=? fuel)%nat
  then Done tt {| enumerations := enumerations s;
                  history := history s ++ stop_progress fuel streams |}
  else Running {| enumerations := enumerations s;
                  history := history s ++ stop_progress fuel streams |}.
Proof.
  unfold run_notebook.
  induction streams as [|stream rest IH]; intros fuel s.
  - cbn [for_each List.length Nat.mul Nat.add Nat.leb stop_progress].
    rewrite steps_Ret, app_nil_r. now destruct s.
  - assert (Hshort : forall fuel, fuel < 2 ->
              (2 * List.length (stream :: rest) <=? fuel)%nat = false).
    { intros f Hf. apply Nat.leb_gt. cbn [List.length]. lia. }
    cbn [for_each]. unfold stop_stream at 1.
    rewrite bind_bind, bind_trigger.
    destruct fuel as [|fuel].
    { rewrite Hshort by lia. cbn [stop_progress].
      rewrite app_nil_r, session_eta. reflexivity. }
    rewrite steps_Vis. cbn [handle_notebook handle fst snd clock trace map].
    rewrite bind_trigger.
    destruct fuel as [|fuel].
    { rewrite Hshort by lia. reflexivity. }
    rewrite steps_Vis. cbn [handle_notebook fst snd enumerations history].
    rewrite IH. cbn [enumerations history stop_progress].
    rewrite <- !app_assoc. cbn [app].
    replace (2 * List.length (stream :: rest) <=? S (S fuel))%nat
      with (2 * List.length rest <=? fuel)%nat; [reflexivity|].
    cbn [List.length].
    destruct (Nat.leb_spec (2 * List.length rest) fuel),
             (Nat.leb_spec (2 * S (List.length rest)) (S (S fuel)));
      try reflexivity; lia.
Qed.

Lemma stop_progress_all fuel streams :
  2 * List.length streams <= fuel ->
  stop_progress fuel streams = stop_events streams.
Proof.
  revert fuel. induction streams as [|stream rest IH]; intros fuel H.
  - reflexivity.
  - cbn [List.length] in H.
    destruct fuel as [|[|fuel]]; try lia.
    cbn. f_equal. f_equal. apply IH. lia.
Qed.

Lemma run_stop_all_streams fuel s :
  run_notebook spark (S fuel) stop_all_streams s =
  let streams := spark (enumerations s) in
  let s' := {| enumerations := S (enumerations s);
               history := history s ++ Ev (EvActive streams)
                            :: stop_progress fuel streams |} in
  if (2 * List.length streams <=? fuel)%nat then Done tt s' else Running s'.
Proof.
  unfold run_notebook, stop_all_streams.
  rewrite bind_trigger, steps_Vis.
  cbn [handle_notebook handle fst snd clock trace map app]. cbv beta zeta.
  pose proof (run_for_each_stop (spark (enumerations s)) fuel
                {| enumerations := S (enumerations s);
                   history := history s
                              ++ [Ev (EvActive (spark (enumerations s)))] |})
    as H.
  unfold run_notebook in H. rewrite H. cbn [enumerations history].
  now rewrite <- !app_assoc.
Qed.

End NotebookFacts.

Lemma stopped_app h h' : stopped (h ++ h') = (stopped h ++ stopped h')%list.
Proof. apply flat_map_app. Qed.

Lemma announced_app h h' :
  announced (h ++ h') = (announced h ++ announced h')%list.
Proof. apply flat_map_app. Qed.

Lemma stopped_map_Ev tr : stopped (map Ev tr) = [].
Proof. induction tr as [|e tr IH]; [reflexivity|exact IH]. Qed.

Lemma announced_map_Ev tr : announced (map Ev tr) = printed tr.
Proof.
  unfold announced, printed.
  induction tr as [|e tr IH]; [reflexivity|].
  destruct e; cbn; now rewrite IH.
Qed.

Lemma stopped_stop_events streams : stopped (stop_events streams) = streams.
Proof.
  unfold stopped, stop_events.
  induction streams as [|stream rest IH]; [reflexivity|].
  cbn. now rewrite IH.
Qed.

Lemma announced_stop_events streams :
  announced (stop_events streams) = map stopping_message streams.
Proof.
  unfold announced, stop_events.
  induction streams as [|stream rest IH]; [reflexivity|].
  cbn. now rewrite IH.
Qed.

Lemma stopped_pair stream h :
  stopped (Ev (EvPrint (stopping_message stream)) :: EvStop stream :: h) =
  stream :: stopped h.
Proof. reflexivity. Qed.

Lemma announced_pair stream h :
  announced (Ev (EvPrint (stopping_message stream)) :: EvStop stream :: h) =
  stopping_message stream :: announced h.
Proof. reflexivity. Qed.

(** Whatever the number of steps, the loop has stopped a prefix of the
    list, and has printed the lines of that prefix and of at most the next
    stream. *)
Lemma stop_progress_prefix streams : forall fuel,
  exists done,
    done <= List.length streams /\
    stopped (stop_progress fuel streams) = firstn done streams /\
    (announced (stop_progress fuel streams) =
       map stopping_message (firstn done streams) \/
     done < List.length streams /\
     announced (stop_progress fuel streams) =
       map stopping_message (firstn (S done) streams)).
Proof.
  induction streams as [|stream rest IH]; intros fuel.
  - exists 0. cbn. auto.
  - destruct fuel as [|[|fuel]].
    + exists 0. cbn. repeat split; auto. lia.
    + exists 0. cbn. repeat split; try lia. right. split; [lia|reflexivity].
    + destruct (IH fuel) as (done & Hle & Hs & Ha).
      exists (S done). cbn [stop_progress List.length].
      rewrite stopped_pair, announced_pair, !firstn_cons, !map_cons, Hs.
      split; [lia|]. split; [reflexivity|].
      destruct Ha as [Ha|[Hlt Ha]]; [left|right; split; [lia|]];
        now rewrite Ha.
Qed.

Lemma In_firstn_In {A} (x : A) n l : In x (firstn n l) -> In x l.
Proof.
  revert n. induction l as [|y l IH]; intros [|n]; cbn; try tauto.
  intros [->|H]; eauto.
Qed.

(** If whenever one call finds its test failed the other does too, the
    other call's test fails first no later. *)
Lemma first_ready_earlier spark spark' name progressions progressions' n :
  (forall k, waits_at spark name progressions k = false ->
             waits_at spark' name progressions' k = false) ->
  first_ready spark name progressions n ->
  exists n', n' <= n /\ first_ready spark' name progressions' n'.
Proof.
  intros Himp [Hn _].
  destruct (first_ready_or_waits spark' name progressions' (S n))
    as [(n' & Hlt & Hf)|Hall].
  - exists n'. split; [lia|exact Hf].
  - apply Himp in Hn. rewrite (Hall n) in Hn by lia. discriminate.
Qed.

Lemma returned_no_later spark spark' name progressions progressions' fuel w :
  (forall k, waits_at spark name progressions k = false ->
             waits_at spark' name progressions' k = false) ->
  run spark fuel name (Some progressions) = Returned tt w ->
  exists w',
    run spark' fuel name (Some progressions') = Returned tt w' /\
    clock w' <= clock w /\
    List.length (slept (trace w')) <= List.length (slept (trace w)).
Proof.
  intros Himp H. apply run_returned_iff in H.
  destruct H as (n & Hf & Hle & ->).
  destruct (first_ready_earlier spark spark' name progressions progressions'
              n Himp Hf) as (n' & Hn' & Hf').
  exists (returned_world spark' name n'). split; [|split].
  - apply run_returns; [exact Hf'|]. unfold steps_to_return in *. lia.
  - cbn. lia.
  - rewrite !slept_returned_world, !repeat_length. exact Hn'.
Qed.

(** X1.  Lowering the threshold never delays the call: on the same engine
    and with the same number of steps, if the call with threshold
    [progressions] has returned, so has the call with any threshold
    [progressions' <= progressions], after no more enumerations and no more
    sleeps. *)
Theorem until_stream_is_ready_lower_threshold_no_later
    (spark : nat -> list StreamingQuery.t) (name : string)
    (progressions progressions' : Z) (fuel : nat) (w : world) :
  (progressions' <= progressions)%Z ->
  run spark fuel name (Some progressions) = Returned tt w ->
  exists w',
    run spark fuel name (Some progressions') = Returned tt w' /\
    clock w' <= clock w /\
    List.length (slept (trace w')) <= List.length (slept (trace w)).
Proof.
  intros Hp. apply returned_no_later. intros k Hk.
  apply waits_at_false in Hk. destruct Hk as (query0 & rest & Hq & Hc).
  apply waits_at_false. exists query0, rest. split; [exact Hq|lia].
Qed.

Lemma until_stream_is_ready_lower_threshold_no_later_witness :
  exists w',
    run job_A_scenario 11 "job-A" (Some 1%Z) = Returned tt w' /\
    clock w' <= clock (returned_world job_A_scenario "job-A" 3) /\
    List.length (slept (trace w')) <=
    List.length (slept (trace (returned_world job_A_scenario "job-A" 3))).
Proof.
  apply (until_stream_is_ready_lower_threshold_no_later
           job_A_scenario "job-A" 3%Z 1%Z 11
           (returned_world job_A_scenario "job-A" 3)).
  - lia.
  - vm_compute. reflexivity.
Defined.

(** X2.  More progress never delays the call: if on a second engine the
    job is first among the matches whenever it was on the first, with at
    least as many progress reports, then with the same threshold and the
    same number of steps the call on the second engine has returned
    whenever the call on the first has, after no more enumerations and no
    more sleeps. *)
Theorem until_stream_is_ready_more_progress_no_later
    (spark spark' : nat -> list StreamingQuery.t) (name : string)
    (progressions : Z) (fuel : nat) (w : world) :
  (forall k query0 rest,
     poll spark name k = query0 :: rest ->
     exists query0' rest',
       poll spark' name k = query0' :: rest' /\
       (progress_count query0 <= progress_count query0')%Z) ->
  run spark fuel name (Some progressions) = Returned tt w ->
  exists w',
    run spark' fuel name (Some progressions) = Returned tt w' /\
    clock w' <= clock w /\
    List.length (slept (trace w')) <= List.length (slept (trace w)).
Proof.
  intros Hmore. apply returned_no_later. intros k Hk.
  apply waits_at_false in Hk. destruct Hk as (query0 & rest & Hq & Hc).
  destruct (Hmore k query0 rest Hq) as (query0' & rest' & Hq' & Hc').
  apply waits_at_false. exists query0', rest'. split; [exact Hq'|lia].
Qed.

Lemma until_stream_is_ready_more_progress_no_later_witness :
  exists w',
    run (fun _ => [job "job-A" 5]) 11 "job-A" (Some 3%Z) = Returned tt w' /\
    clock w' <= clock (returned_world job_A_scenario "job-A" 3) /\
    List.length (slept (trace w')) <=
    List.length (slept (trace (returned_world job_A_scenario "job-A" 3))).
Proof.
  apply (until_stream_is_ready_more_progress_no_later
           job_A_scenario (fun _ => [job "job-A" 5]) "job-A" 3%Z 11
           (returned_world job_A_scenario "job-A" 3)).
  - intros k query0 rest H. exists (job "job-A" 5), [].
    split; [reflexivity|].
    unfold poll, job_A_scenario, script in H.
    destruct k as [|[|[|[|[|k]]]]]; cbn in H; try discriminate;
      injection H as <- _; vm_compute; discriminate.
  - vm_compute. reflexivity.
Defined.

Lemma run_stop_all_streams_done spark s spare :
  run_notebook spark
    (1 + 2 * List.length (spark (enumerations s)) + spare)
    stop_all_streams s =
  Done tt
    {| enumerations := S (enumerations s);
       history := history s
                  ++ Ev (EvActive (spark (enumerations s)))
                     :: stop_events (spark (enumerations s)) |}.
Proof.
  cbn [Nat.add]. rewrite run_stop_all_streams. cbv zeta.
  rewrite stop_progress_all by lia.
  destruct (Nat.leb_spec (2 * List.length (spark (enumerations s)))
              (2 * List.length (spark (enumerations s)) + spare));
    [reflexivity|lia].
Qed.

(** X3.  The stop loop ends on every active set.  It enumerates the active
    streams once and then, for each stream of that enumeration in order,
    prints its "Stopping" line and stops it; it never sleeps and stops
    every enumerated stream, named or not, whatever the name.  On an empty
    active set it only enumerates. *)
Theorem stop_all_streams_stops_every_enumerated_stream
    (spark : nat -> list StreamingQuery.t) (s : session) (spare : nat) :
  run_notebook spark
    (1 + 2 * List.length (spark (enumerations s)) + spare)
    stop_all_streams s =
  Done tt
    {| enumerations := S (enumerations s);
       history := history s
                  ++ Ev (EvActive (spark (enumerations s)))
                     :: stop_events (spark (enumerations s)) |} /\
  stopped (Ev (EvActive (spark (enumerations s)))
             :: stop_events (spark (enumerations s))) =
    spark (enumerations s) /\
  announced (Ev (EvActive (spark (enumerations s)))
               :: stop_events (spark (enumerations s))) =
    map stopping_message (spark (enumerations s)).
Proof.
  split; [|split].
  - apply run_stop_all_streams_done.
  - apply stopped_stop_events.
  - apply announced_stop_events.
Qed.

(** X4.  However far the stop loop has got, the streams it has stopped are
    the first so-many streams of its one enumeration, in order, and the
    "Stopping" lines it has printed are those of the same streams and of at
    most the next one: no stream is stopped before its line is printed, and
    no second line is printed before the stream of the first is stopped. *)
Theorem stop_all_streams_announces_then_stops
    (spark : nat -> list StreamingQuery.t) (s : session) (fuel : nat) :
  exists done,
    done <= List.length (spark (enumerations s)) /\
    stopped (history (session_of
                        (run_notebook spark fuel stop_all_streams s))) =
      (stopped (history s) ++ firstn done (spark (enumerations s)))%list /\
    (announced (history (session_of
                           (run_notebook spark fuel stop_all_streams s))) =
       (announced (history s)
        ++ map stopping_message (firstn done (spark (enumerations s))))%list \/
     done < List.length (spark (enumerations s)) /\
     announced (history (session_of
                           (run_notebook spark fuel stop_all_streams s))) =
       (announced (history s)
        ++ map stopping_message
             (firstn (S done) (spark (enumerations s))))%list).
Proof.
  destruct fuel as [|fuel].
  - exists 0. cbn. rewrite !app_nil_r. auto with arith.
  - rewrite run_stop_all_streams. cbv zeta.
    destruct (stop_progress_prefix (spark (enumerations s)) fuel)
      as (done & Hle & Hs & Ha).
    exists done. split; [exact Hle|].
    assert (Hh : forall b : bool,
      history (session_of
        (if b
         then Done tt
                {| enumerations := S (enumerations s);
                   history := history s
                     ++ Ev (EvActive (spark (enumerations s)))
                        :: stop_progress fuel (spark (enumerations s)) |}
         else Running
                {| enumerations := S (enumerations s);
                   history := history s
                     ++ Ev (EvActive (spark (enumerations s)))
                        :: stop_progress fuel (spark (enumerations s)) |})) =
      (history s ++ Ev (EvActive (spark (enumerations s)))
         :: stop_progress fuel (spark (enumerations s)))%list)
      by (intros [|]; reflexivity).
    rewrite Hh, stopped_app, announced_app.
    change (stopped (Ev (EvActive (spark (enumerations s)))
                       :: stop_progress fuel (spark (enumerations s))))
      with (stopped (stop_progress fuel (spark (enumerations s)))).
    change (announced (Ev (EvActive (spark (enumerations s)))
                         :: stop_progress fuel (spark (enumerations s))))
      with (announced (stop_progress fuel (spark (enumerations s)))).
    rewrite Hs. split; [reflexivity|].
    destruct Ha as [Ha|[Hlt Ha]]; rewrite Ha; auto.
Qed.

(** The two cells in sequence: either the waiter is still pending and
    nothing else has happened, or it has returned and the stop loop runs
    from the world the waiter left. *)
Lemma run_wait_then_stop_all spark fuel :
  (exists w,
     run spark fuel my_stream_name None = Pending w /\
     run_notebook spark fuel wait_then_stop_all opening =
     Running (lift [] w)) \/
  (exists n left,
     first_ready spark my_stream_name 3%Z n /\
     steps_to_return n <= fuel /\ left <= fuel /\
     run_notebook spark fuel wait_then_stop_all opening =
     run_notebook spark left stop_all_streams
       (lift [] (returned_world spark my_stream_name n))).
Proof.
  unfold wait_then_stop_all, run_notebook.
  pose proof (run_notebook_translate spark fuel
                (until_stream_is_ready my_stream_name None) [] boot) as Ht.
  unfold run_notebook in Ht. change (lift [] boot) with opening in Ht.
  fold (run spark fuel my_stream_name None) in Ht.
  destruct (steps_bind (handle_notebook spark)
              (fun _ : unit => stop_all_streams) fuel
              (translate (@inl1 sparkE streamE)
                 (until_stream_is_ready my_stream_name None)) opening)
    as [(s' & H1 & H2)|(r & s' & left & H1 & Hle & H2)];
    rewrite H1 in Ht.
  - left. destruct (run spark fuel my_stream_name None) as [r w|w] eqn:Hr;
      [discriminate|].
    exists w. split; [reflexivity|]. rewrite <- Ht. exact H2.
  - right. destruct (run spark fuel my_stream_name None) as [r' w|w] eqn:Hr;
      [|discriminate].
    injection Ht as -> ->. destruct r'.
    rewrite run_default in Hr. apply run_returned_iff in Hr.
    destruct Hr as (n & Hf & Hn & ->).
    exists n, left. repeat split; try apply Hf; auto.
Qed.

(** X5.  The waiter followed by the stop loop, when the waiter's test first
    fails at enumeration [n]: the two cells end, the ready message comes
    before every "Stopping" line, and the streams stopped are exactly those
    of enumeration [n + 1], the one the stop loop makes itself, not those
    of the enumeration on which the waiter found the stream ready. *)
Theorem wait_then_stop_all_stops_the_next_enumeration
    (spark : nat -> list StreamingQuery.t) (n spare : nat) :
  first_ready spark my_stream_name 3%Z n ->
  run_notebook spark
    (steps_to_return n + (1 + 2 * List.length (spark (S n)) + spare))
    wait_then_stop_all opening =
  Done tt
    {| enumerations := S (S n);
       history :=
         map Ev (trace (returned_world spark my_stream_name n))
         ++ Ev (EvActive (spark (S n))) :: stop_events (spark (S n)) |} /\
  stopped
    (map Ev (trace (returned_world spark my_stream_name n))
     ++ Ev (EvActive (spark (S n))) :: stop_events (spark (S n))) =
    spark (S n) /\
  announced
    (map Ev (trace (returned_world spark my_stream_name n))
     ++ Ev (EvActive (spark (S n))) :: stop_events (spark (S n))) =
    ready_message my_stream_name :: map stopping_message (spark (S n)).
Proof.
  intros Hf. split; [|split].
  - unfold wait_then_stop_all, run_notebook.
    apply (steps_bind_Done (handle_notebook spark)
             (fun _ : unit => stop_all_streams) (steps_to_return n)
             _ opening tt (lift [] (returned_world spark my_stream_name n))).
    + pose proof (run_notebook_translate spark (steps_to_return n)
                    (until_stream_is_ready my_stream_name None) [] boot) as Ht.
      unfold run_notebook in Ht. change (lift [] boot) with opening in Ht.
      refine (eq_trans Ht _).
      fold (run spark (steps_to_return n) my_stream_name None).
      rewrite run_default, (run_returns spark my_stream_name 3%Z n); auto.
    + exact (run_stop_all_streams_done spark
               (lift [] (returned_world spark my_stream_name n)) spare).
  - rewrite stopped_app, stopped_map_Ev. apply stopped_stop_events.
  - rewrite announced_app, announced_map_Ev, printed_returned_world.
    cbn [app]. f_equal. apply announced_stop_events.
Qed.

Lemma wait_then_stop_all_stops_the_next_enumeration_witness :
  run_notebook handover_scenario (steps_to_return 0 + (1 + 2 * 1 + 0))
    wait_then_stop_all opening =
  Done tt
    {| enumerations := 2;
       history :=
         map Ev (trace (returned_world handover_scenario my_stream_name 0))
         ++ Ev (EvActive (handover_scenario 1))
            :: stop_events (handover_scenario 1) |} /\
  stopped
    (map Ev (trace (returned_world handover_scenario my_stream_name 0))
     ++ Ev (EvActive (handover_scenario 1))
        :: stop_events (handover_scenario 1)) =
    [job "other" 0] /\
  announced
    (map Ev (trace (returned_world handover_scenario my_stream_name 0))
     ++ Ev (EvActive (handover_scenario 1))
        :: stop_events (handover_scenario 1)) =
    [ready_message my_stream_name; "Stopping other"].
Proof.
  apply (wait_then_stop_all_stops_the_next_enumeration handover_scenario 0 0).
  split; [reflexivity|]. intros m Hm. lia.
Defined.

(** X6.  If the waiter's test never fails (the stream never shows up, or
    never gets to three progress reports), the two cells never end, and
    however long they run no stream is stopped and nothing is printed: the
    stop loop is never reached. *)
Theorem wait_then_stop_all_never_stops_while_waiting
    (spark : nat -> list StreamingQuery.t) :
  (forall k, must_wait spark my_stream_name 3%Z k) ->
  forall fuel, exists s,
    run_notebook spark fuel wait_then_stop_all opening = Running s /\
    stopped (history s) = [] /\
    announced (history s) = [].
Proof.
  intros Hwait fuel.
  destruct (run_wait_then_stop_all spark fuel)
    as [(w & Hw & Hrun)|(n & left & [Hn _] & _)].
  - exists (lift [] w). split; [exact Hrun|].
    cbn [lift history app]. split.
    + apply stopped_map_Ev.
    + rewrite announced_map_Ev. now apply printed_pending in Hw.
  - specialize (Hwait n). apply waits_at_true in Hwait.
    rewrite Hwait in Hn. discriminate.
Qed.

Lemma wait_then_stop_all_never_stops_while_waiting_witness :
  exists s,
    run_notebook (fun _ => [job "lesson03_stream" 2; job "other" 9]) 40
      wait_then_stop_all opening = Running s /\
    stopped (history s) = [] /\
    announced (history s) = [].
Proof.
  refine (wait_then_stop_all_never_stops_while_waiting
            (fun _ => [job "lesson03_stream" 2; job "other" 9]) _ 40).
  intros k. right. exists (job "lesson03_stream" 2), [].
  split; [reflexivity|]. vm_compute. reflexivity.
Defined.

(** X7.  Whatever the engine does and however far the two cells have got, a
    stream that has been stopped was among the streams of the enumeration
    made right after the waiter returned, and the ready message was the
    first line printed: nothing is stopped before the waiter has reported
    the stream ready. *)
Theorem wait_then_stop_all_stops_only_after_ready
    (spark : nat -> list StreamingQuery.t) (fuel : nat)
    (stream : StreamingQuery.t) :
  In stream
     (stopped (history (session_of
        (run_notebook spark fuel wait_then_stop_all opening)))) ->
  exists n,
    first_ready spark my_stream_name 3%Z n /\
    In stream (spark (S n)) /\
    hd_error (announced (history (session_of
        (run_notebook spark fuel wait_then_stop_all opening)))) =
      Some (ready_message my_stream_name).
Proof.
  destruct (run_wait_then_stop_all spark fuel)
    as [(w & Hw & Hrun)|(n & left & Hf & _ & _ & Hrun)];
    rewrite Hrun.
  - cbn [session_of lift history app]. rewrite stopped_map_Ev. intros [].
  - intros Hin. exists n. split; [exact Hf|].
    destruct left as [|left].
    + cbn in Hin. rewrite stopped_map_Ev in Hin. destruct Hin.
    + rewrite run_stop_all_streams in Hin |- *. cbv zeta in Hin |- *.
      cbn [lift enumerations history returned_world clock trace app]
        in Hin |- *.
      set (h := (map Ev (polled spark n
                         ++ [EvPrint (ready_message my_stream_name)])
                 ++ Ev (EvActive (spark (S n)))
                    :: stop_progress left (spark (S n)))%list) in *.
      assert (Hh : forall b : bool,
        history (session_of
          (if b then Done tt {| enumerations := S (S n); history := h |}
           else Running {| enumerations := S (S n); history := h |})) = h)
        by (intros [|]; reflexivity).
      rewrite Hh in Hin |- *. subst h.
      rewrite stopped_app, stopped_map_Ev in Hin. cbn [app] in Hin.
      change (stopped (Ev (EvActive (spark (S n)))
                         :: stop_progress left (spark (S n))))
        with (stopped (stop_progress left (spark (S n)))) in Hin.
      destruct (stop_progress_prefix (spark (S n)) left)
        as (done & _ & Hs & _).
      rewrite Hs in Hin. split; [now apply In_firstn_In in Hin|].
      rewrite announced_app, announced_map_Ev, printed_app, printed_polled.
      reflexivity.
Qed.

Lemma wait_then_stop_all_stops_only_after_ready_witness :
  exists n,
    first_ready handover_scenario my_stream_name 3%Z n /\
    In (job "other" 0) (handover_scenario (S n)) /\
    hd_error (announced (history (session_of
        (run_notebook handover_scenario 5 wait_then_stop_all opening)))) =
      Some (ready_message my_stream_name).
Proof.
  apply (wait_then_stop_all_stops_only_after_ready
           handover_scenario 5 (job "other" 0)).
  vm_compute. left. reflexivity.
Defined.
